(** * The Ableton OSC daemon: correlation registry and command dispatcher

    A shallow embedding of class [AbletonOSCDaemon] of [src/osc_daemon.py].
    The daemon runs on one asyncio event loop, so the code between two
    suspension points runs without interleaving.  A coroutine is therefore
    modelled as a state transformer on the daemon object, and what the event
    loop runs while a coroutine is suspended is an explicit list of events. *)

From Stdlib Require Import String Ascii ZArith List DecimalString.
From stdpp Require Import gmap strings list fin_maps.

Local Open Scope string_scope.
Local Set Warnings "-register-all".

(** ** Values

    What [json.loads] produces and [json.dumps] consumes.  A float is kept as
    a mantissa and a binary exponent; the daemon only ever tests it for
    truth.  A Python tuple of OSC arguments is a [JList]: [json.dumps] writes
    both as an array. *)

Inductive Json : Type :=
  | JNull
  | JBool (b : bool)
  | JInt (n : Z)
  | JFloat (m e : Z)
  | JStr (s : string)
  | JList (items : list Json)
  | JObj (fields : list (string * Json)).

(** Items of a dict in insertion order; the keys of a parsed dict are
    distinct, so the first binding is the binding. *)
Fixpoint assoc_get (key : string) (fields : list (string * Json)) : option Json :=
  match fields with
  | [] => None
  | (k, v) :: rest => if String.eqb k key then Some v else assoc_get key rest
  end.

(** [bool(v)]. *)
Definition py_truthy (v : Json) : bool :=
  match v with
  | JNull => false
  | JBool b => b
  | JInt n => negb (n =? 0)%Z
  | JFloat m _ => negb (m =? 0)%Z
  | JStr s => negb (String.eqb s "")
  | JList items => match items with [] => false | _ => true end
  | JObj fields => match fields with [] => false | _ => true end
  end.

(** [v == s] for a string literal [s]. *)
Definition py_eq_str (v : Json) (s : string) : bool :=
  match v with
  | JStr t => String.eqb t s
  | _ => false
  end.

(** [type(v).__name__]. *)
Definition py_type_name (v : Json) : string :=
  match v with
  | JNull => "NoneType"
  | JBool _ => "bool"
  | JInt _ => "int"
  | JFloat _ _ => "float"
  | JStr _ => "str"
  | JList _ => "list"
  | JObj _ => "dict"
  end.

Definition py_str_int (n : Z) : string := NilZero.string_of_int (Z.to_int n).

(** ** Exceptions *)

Inductive Exn : Type :=
  | TimeoutError                 (* asyncio.TimeoutError *)
  | CancelledError               (* asyncio.CancelledError: not an Exception *)
  | Exception (text : string).   (* any other Exception e, text = str(e) *)

Definition attribute_error (v : Json) (attr : string) : Exn :=
  Exception ("'" ++ py_type_name v ++ "' object has no attribute '" ++ attr ++ "'").

Inductive Outcome (A : Type) : Type :=
  | Return (a : A)
  | Raise (e : Exn).
Arguments Return {A} a.
Arguments Raise {A} e.

(** ** The daemon object *)

(** An [asyncio.Future]. *)
Inductive FutureState : Type :=
  | FPending
  | FResult (r : Json)
  | FCancelled.

(** Ghost record of who touched the registry and whether [_response_lock]
    was held at that moment. *)
Inductive Site : Type := InSendOscWithResponse | InHandleAbletonMessage.

Inductive Action : Type :=
  | Insert (address : string)     (* pending_responses[address] = future *)
  | Delete (address : string)     (* del pending_responses[address] *)
  | Resolve (address : string)    (* future.set_result(...) *)
  | Await.                        (* await asyncio.wait_for(future, ...) *)

Record Event : Type := mkEvent { who : Site; what : Action; locked : bool }.

(** The fields of [self] that the modelled methods read or write.  A future
    is identified by its index in [futures]; [osc_out] lists the datagrams
    handed to [osc_client.send_message], oldest first. *)
Record Daemon : Type := mkDaemon {
  socket_port : Z;
  ableton_host : string;
  ableton_port : Z;
  receive_port : Z;
  pending_responses : gmap string nat;
  futures : list FutureState;
  response_lock : bool;
  osc_out : list (string * Json);
  trace : list Event
}.

Definition set_pending (p : gmap string nat) (d : Daemon) : Daemon :=
  mkDaemon (socket_port d) (ableton_host d) (ableton_port d) (receive_port d)
           p (futures d) (response_lock d) (osc_out d) (trace d).

Definition set_futures (fs : list FutureState) (d : Daemon) : Daemon :=
  mkDaemon (socket_port d) (ableton_host d) (ableton_port d) (receive_port d)
           (pending_responses d) fs (response_lock d) (osc_out d) (trace d).

Definition set_lock (b : bool) (d : Daemon) : Daemon :=
  mkDaemon (socket_port d) (ableton_host d) (ableton_port d) (receive_port d)
           (pending_responses d) (futures d) b (osc_out d) (trace d).

Definition set_osc_out (o : list (string * Json)) (d : Daemon) : Daemon :=
  mkDaemon (socket_port d) (ableton_host d) (ableton_port d) (receive_port d)
           (pending_responses d) (futures d) (response_lock d) o (trace d).

Definition set_trace (t : list Event) (d : Daemon) : Daemon :=
  mkDaemon (socket_port d) (ableton_host d) (ableton_port d) (receive_port d)
           (pending_responses d) (futures d) (response_lock d) (osc_out d) t.

(** [AbletonOSCDaemon()] with the default arguments of [__init__]. *)
Definition init : Daemon :=
  mkDaemon 65432 "127.0.0.1" 11000 11001 ∅ [] false [] [].

(** ** Methods as state transformers that may raise *)

Definition M (A : Type) : Type := Daemon -> Outcome A * Daemon.

Definition ret {A} (a : A) : M A := fun d => (Return a, d).
Definition raise {A} (e : Exn) : M A := fun d => (Raise e, d).
Definition bind {A B} (c : M A) (k : A -> M B) : M B :=
  fun d => match c d with
           | (Return a, d') => k a d'
           | (Raise e, d') => (Raise e, d')
           end.
(** [try: body / except ...: handler]; the handler re-raises what no clause
    of the source catches. *)
Definition try_except {A} (body : M A) (handler : Exn -> M A) : M A :=
  fun d => match body d with
           | (Return a, d') => (Return a, d')
           | (Raise e, d') => handler e d'
           end.

Notation "x <~ c ;; k" := (bind c (fun x => k))
  (at level 100, c at next level, right associativity).
Notation "c ;;; k" := (bind c (fun _ => k))
  (at level 100, right associativity).

Definition result {A} (r : Outcome A * Daemon) : Outcome A := fst r.
Definition after {A} (r : Outcome A * Daemon) : Daemon := snd r.

Definition note (w : Site) (a : Action) : M unit :=
  fun d => (Return tt, set_trace (trace d ++ [mkEvent w a (response_lock d)]) d).

(** [async with self._response_lock]: no critical section of the daemon
    contains a suspension point, so the lock is free whenever a coroutine
    reaches it and entering never suspends. *)
Definition acquire : M unit := fun d => (Return tt, set_lock true d).
Definition release : M unit := fun d => (Return tt, set_lock false d).

(** [address in self.pending_responses] *)
Definition dict_in (address : string) : M bool :=
  fun d => (Return (match pending_responses d !! address with
                    | Some _ => true
                    | None => false
                    end), d).

(** [self.pending_responses.get(address)] *)
Definition dict_get (address : string) : M (option nat) :=
  fun d => (Return (pending_responses d !! address), d).

(** [self.pending_responses[address] = future] *)
Definition dict_set (w : Site) (address : string) (future : nat) : M unit :=
  note w (Insert address) ;;;
  fun d => (Return tt, set_pending (<[address := future]> (pending_responses d)) d).

(** [del self.pending_responses[address]] *)
Definition dict_del (w : Site) (address : string) : M unit :=
  note w (Delete address) ;;;
  fun d => match pending_responses d !! address with
           | Some _ => (Return tt, set_pending (delete address (pending_responses d)) d)
           | None => (Raise (Exception ("'" ++ address ++ "'")), d)  (* KeyError *)
           end.

(** [asyncio.Future()] *)
Definition new_future : M nat :=
  fun d => (Return (length (futures d)), set_futures (futures d ++ [FPending]) d).

(** [future.done()] *)
Definition future_done (future : nat) : M bool :=
  fun d => (Return (match futures d !! future with
                    | Some FPending => false
                    | _ => true
                    end), d).

(** [future.set_result(r)] *)
Definition set_result (w : Site) (address : string) (future : nat) (r : Json) : M unit :=
  note w (Resolve address) ;;;
  fun d => match futures d !! future with
           | Some FPending => (Return tt, set_futures (<[future := FResult r]> (futures d)) d)
           | _ => (Raise (Exception "invalid state"), d)   (* InvalidStateError *)
           end.

(** [future.cancel()]: no effect on a future that is done. *)
Definition cancel (future : nat) : M unit :=
  fun d => match futures d !! future with
           | Some FPending => (Return tt, set_futures (<[future := FCancelled]> (futures d)) d)
           | _ => (Return tt, d)
           end.

(** [self.osc_client.send_message(address, args)].  Whether the call raises
    is not decided by the daemon: [send_exn] is [Some text] when it raises an
    Exception [e] with [str(e) = text]. *)
Definition send_message (address : string) (args : Json) (send_exn : option string) : M unit :=
  fun d => match send_exn with
           | None => (Return tt, set_osc_out (osc_out d ++ [(address, args)]) d)
           | Some text => (Raise (Exception text), d)
           end.

(** ** The correlation registry *)

(** [RESPONSE_PREFIXES] *)
Definition RESPONSE_PREFIXES : list string :=
  [ "/live/device/get"; "/live/scene/get"; "/live/view/get"; "/live/clip/get";
    "/live/clip_slot/get"; "/live/track/get"; "/live/song/get"; "/live/api/get";
    "/live/application/get"; "/live/test"; "/live/error" ].

(** [address.startswith(self.RESPONSE_PREFIXES)] for a string [address]. *)
Definition _expects_response (address : string) : bool :=
  existsb (fun p => String.prefix p address) RESPONSE_PREFIXES.

Definition success_envelope (address : string) (args : list Json) : Json :=
  JObj [("status", JStr "success"); ("address", JStr address); ("data", JList args)].

Definition error_envelope (message address : string) : Json :=
  JObj [("status", JStr "error"); ("message", JStr message); ("address", JStr address)].

Definition sent_envelope (address : string) : Json :=
  JObj [("status", JStr "sent"); ("address", JStr address)].

Definition timeout_message (address : string) : string :=
  "Timeout waiting for response to " ++ address.

Definition send_error_message (text : string) : string :=
  "Error sending OSC message: " ++ text.

(** [_handle_ableton_message(self, address, *args)]: the default handler of
    the OSC dispatcher, a plain function called from the event loop for
    every inbound datagram.  A future object is always true, so the test
    [future and not future.done()] is the test of [done()]. *)
Definition _handle_ableton_message (address : string) (args : list Json) : M unit :=
  present <~ dict_in address ;;
  if present then
    future <~ dict_get address ;;
    (match future with
     | Some f =>
         done <~ future_done f ;;
         if negb done
         then set_result InHandleAbletonMessage address f (success_envelope address args)
         else ret tt
     | None => ret tt
     end) ;;;
    still <~ dict_in address ;;
    if still then dict_del InHandleAbletonMessage address else ret tt
  else ret tt.

(** Lines 147-150 of [_send_osc_with_response]: the waiter is registered
    under the lock. *)
Definition register_waiter (address : string) : M nat :=
  acquire ;;;
  future <~ new_future ;;
  dict_set InSendOscWithResponse address future ;;;
  release ;;;
  ret future.

(** The clean-up that both [except] clauses of [_send_osc_with_response]
    run (lines 164-166 and 177-179). *)
Definition remove_waiter (address : string) : M unit :=
  acquire ;;;
  present <~ dict_in address ;;
  (if present then dict_del InSendOscWithResponse address else ret tt) ;;;
  release.

(** What the event loop may run while a request is suspended in
    [wait_for]: the OSC server delivering a datagram, or a step of the same
    coroutine running for another connection. *)
Inductive EnvEvent : Type :=
  | Inbound (address : string) (args : list Json)
  | TaskRegisters (address : string)                (* lines 147-150 *)
  | TaskSends (address : string) (args : Json)      (* line 154 *)
  | TaskTimesOut (address : string) (future : nat)  (* its wait_for expires; lines 164-166 *)
  | TaskSendFails (address : string).               (* lines 177-179 *)

Definition run_env_event (ev : EnvEvent) : M unit :=
  match ev with
  | Inbound address args => _handle_ableton_message address args
  | TaskRegisters address => register_waiter address ;;; ret tt
  | TaskSends address args => send_message address args None
  | TaskTimesOut address future => cancel future ;;; remove_waiter address
  | TaskSendFails address => remove_waiter address
  end.

(** [await asyncio.wait_for(future, timeout=self.response_timeout)].  The
    events of [env] are those that the loop runs before the deadline; the
    wait yields the result of its future once the future is done, and at
    the deadline [wait_for] cancels the future and raises.  On the reply
    path the daemon returned is the one in which the future was resolved:
    what the loop runs between the resolution and the resumption of the
    coroutine is not represented, and nothing is stated about the registry
    at a return on that path. *)
Fixpoint wait_for (future : nat) (env : list EnvEvent) (d : Daemon) : Outcome Json * Daemon :=
  match futures d !! future with
  | Some (FResult r) => (Return r, d)
  | Some FPending =>
      match env with
      | [] => (cancel future ;;; raise TimeoutError) d
      | ev :: env' =>
          wait_for future env' (after (run_env_event ev d))
      end
  | _ => (Raise CancelledError, d)
  end.

(** [_send_osc_with_response(self, address, args)] *)
Definition _send_osc_with_response
    (address : string) (args : Json) (send_exn : option string) (env : list EnvEvent) : M Json :=
  future <~ register_waiter address ;;
  try_except
    (send_message address args send_exn ;;;
     note InSendOscWithResponse Await ;;;
     response <~ wait_for future env ;;
     ret response)
    (fun e =>
       match e with
       | TimeoutError =>
           remove_waiter address ;;;
           ret (error_envelope (timeout_message address) address)
       | Exception text =>
           remove_waiter address ;;;
           ret (error_envelope (send_error_message text) address)
       | CancelledError => raise CancelledError
       end).

(** [_send_osc_fire_and_forget(self, address, args)] *)
Definition _send_osc_fire_and_forget
    (address : string) (args : Json) (send_exn : option string) : M Json :=
  try_except
    (send_message address args send_exn ;;;
     ret (sent_envelope address))
    (fun e =>
       match e with
       | Exception text => ret (error_envelope (send_error_message text) address)
       | TimeoutError => ret (error_envelope (send_error_message "") address)
       | CancelledError => raise CancelledError
       end).

(** ** The command dispatcher and the command channel *)

Section Dispatcher.

(** [repr] of a float, a list or a dict, which the model does not spell
    out; it only appears inside the text of the unknown-command error. *)
Variable py_repr : Json -> string.

(** [str(v)], as an f-string formats [v]. *)
Definition py_str (v : Json) : string :=
  match v with
  | JNull => "None"
  | JBool true => "True"
  | JBool false => "False"
  | JInt n => py_str_int n
  | JStr s => s
  | _ => py_repr v
  end.

(** [message.get(key, default)]; [default] is [JNull] for the one-argument
    form.  A decoded command that is not an object has no [get]. *)
Definition message_get (message : Json) (key : string) (default : Json) : M Json :=
  match message with
  | JObj fields =>
      ret (match assoc_get key fields with Some v => v | None => default end)
  | _ => raise (attribute_error message "get")
  end.

Definition missing_address_envelope : Json :=
  JObj [("status", JStr "error"); ("message", JStr "Missing OSC address")].

Definition status_envelope (d : Daemon) : Json :=
  JObj [("status", JStr "ok"); ("daemon", JStr "running");
        ("ableton_host", JStr (ableton_host d));
        ("ableton_port", JInt (ableton_port d));
        ("receive_port", JInt (receive_port d));
        ("socket_port", JInt (socket_port d))].

Definition pong_envelope : Json :=
  JObj [("status", JStr "ok"); ("message", JStr "pong")].

Definition unknown_command_envelope (command : Json) : Json :=
  JObj [("status", JStr "error");
        ("message", JStr ("Unknown command: " ++ py_str command))].

(** [_process_command(self, message)].  [send_exn] and [env] are what the
    transmitter and the event loop do if the command gets that far. *)
Definition _process_command
    (message : Json) (send_exn : option string) (env : list EnvEvent) : M Json :=
  command <~ message_get message "command" JNull ;;
  if py_eq_str command "send_message" then
    address <~ message_get message "address" JNull ;;
    args <~ message_get message "args" (JList []) ;;
    if negb (py_truthy address) then ret missing_address_envelope
    else
      match address with
      | JStr a =>
          if _expects_response a
          then _send_osc_with_response a args send_exn env
          else _send_osc_fire_and_forget a args send_exn
      | _ => raise (attribute_error address "startswith")
      end
  else if py_eq_str command "get_status" then
    fun d => (Return (status_envelope d), d)
  else if py_eq_str command "ping" then ret pong_envelope
  else ret (unknown_command_envelope command).

(** One turn of the read loop of [_handle_socket_client]: what
    [reader.read] and the decoding of its bytes came to. *)
Inductive Read : Type :=
  | ReadEof                               (* b'': the peer closed *)
  | ReadFails (e : Exn)                   (* reset, or bytes that are not UTF-8 *)
  | ReadBadJson (text : string)           (* JSONDecodeError e, text = str(e) *)
  | ReadCommand (message : Json) (send_exn : option string) (env : list EnvEvent).

Inductive Conn : Type := ConnOpen | ConnClosed.

Definition invalid_json_envelope (text : string) : Json :=
  JObj [("status", JStr "error"); ("message", JStr ("Invalid JSON: " ++ text))].

(** [_handle_socket_client(self, reader, writer)] over the reads still to
    come: the responses written, in order, and whether the handler is still
    in its loop (suspended in [reader.read]) when the reads run out.  Writes
    are taken to succeed. *)
Fixpoint _handle_socket_client (reads : list Read) (d : Daemon) : (list Json * Conn) * Daemon :=
  match reads with
  | [] => (([], ConnOpen), d)
  | ReadEof :: _ => (([], ConnClosed), d)
  | ReadFails _ :: _ => (([], ConnClosed), d)
  | ReadBadJson text :: rest =>
      let '((written, conn), d') := _handle_socket_client rest d in
      ((invalid_json_envelope text :: written, conn), d')
  | ReadCommand message send_exn env :: rest =>
      match _process_command message send_exn env d with
      | (Return response, d1) =>
          let '((written, conn), d2) := _handle_socket_client rest d1 in
          ((response :: written, conn), d2)
      | (Raise _, d1) => (([], ConnClosed), d1)
      end
  end.

End Dispatcher.

(** ** The caller of the daemon

    Class [AbletonClient], [format_response] and the tool
    [test_connection] of [src/mcp_ableton_server.py]. *)

Definition outcome_bind {A B} (c : Outcome A) (k : A -> Outcome B) : Outcome B :=
  match c with
  | Return a => k a
  | Raise e => Raise e
  end.

Notation "x <?~ c ;; k" := (outcome_bind c (fun x => k))
  (at level 100, c at next level, right associativity).

(** [v.get(key, default)]. *)
Definition py_get (v : Json) (key : string) (default : Json) : Outcome Json :=
  match v with
  | JObj fields =>
      Return (match assoc_get key fields with Some x => x | None => default end)
  | _ => Raise (attribute_error v "get")
  end.

(** [fields[key] = v] on the items of a dict: a key that is present keeps
    its place. *)
Fixpoint dict_set_item (key : string) (v : Json) (fields : list (string * Json))
    : list (string * Json) :=
  match fields with
  | [] => [(key, v)]
  | (k, v') :: rest =>
      if String.eqb k key then (k, v) :: rest
      else (k, v') :: dict_set_item key v rest
  end.

(** [fields.update(kwargs)]. *)
Definition dict_update (fields kwargs : list (string * Json)) : list (string * Json) :=
  fold_left (fun acc kv => dict_set_item kv.1 kv.2 acc) kwargs fields.

(** ['Timeout' in s] for strings. *)
Fixpoint contains (needle hay : string) : bool :=
  String.prefix needle hay ||
  match hay with
  | EmptyString => false
  | String _ rest => contains needle rest
  end.

(** [needle in v]: substring of a string, element of a list, key of a
    dict; the other values are no containers. *)
Definition py_in_str (needle : string) (v : Json) : Outcome bool :=
  match v with
  | JStr s => Return (contains needle s)
  | JList items => Return (existsb (fun x => py_eq_str x needle) items)
  | JObj fields => Return (existsb (fun kv => String.eqb kv.1 needle) fields)
  | _ => Raise (Exception ("argument of type '" ++ py_type_name v ++ "' is not iterable"))
  end.

Module AbletonClient.

(** What a call on the socket can raise: [socket.timeout], or another
    [socket.error] [e] with [str(e) = text]. *)
Inductive SockErr : Type :=
  | SockTimeout
  | SockError (text : string).

(** What the exchange of one [send_command] comes to, once connected. *)
Inductive Io : Type :=
  | IoSendFails (e : SockErr)       (* sendall raised *)
  | IoRecvFails (e : SockErr)       (* recv raised *)
  | IoClosed                        (* recv returned b'' *)
  | IoBadBytes (text : string)      (* decode raised UnicodeDecodeError *)
  | IoBadJson (text : string)       (* json.loads raised JSONDecodeError *)
  | IoReply (response : Json).      (* json.loads returned *)

(** The fields of [self].  A socket object is identified by the number of
    the connection attempt that created it; [attempts] counts the attempts
    and [wire] lists, oldest first, the requests that [sendall] took, with
    the socket they went to. *)
Record Client : Type := mkClient {
  connected : bool;
  sock : option nat;
  attempts : nat;
  wire : list (nat * Json)
}.

(** [AbletonClient()] *)
Definition fresh : Client := mkClient false None 0 [].

Definition has_sock (c : Client) : bool :=
  match sock c with
  | Some _ => true
  | None => false
  end.

(** [connect(self)]; [reachable] tells whether the attempt succeeds. *)
Definition connect (reachable : bool) (c : Client) : bool * Client :=
  if connected c && has_sock c then (true, c)
  else if reachable
  then (true, mkClient true (Some (attempts c)) (S (attempts c)) (wire c))
  else (false, mkClient false None (S (attempts c)) (wire c)).

(** [disconnect(self)] *)
Definition disconnect (c : Client) : Client :=
  mkClient false None (attempts c) (wire c).

(** [_ensure_connected(self)] *)
Definition _ensure_connected (reachable : bool) (c : Client) : bool * Client :=
  if negb (connected c) || negb (has_sock c) then connect reachable c
  else (true, c).

Definition error_response (message : string) : Json :=
  JObj [("status", JStr "error"); ("message", JStr message)].

(** [request = {'command': command}; request.update(kwargs)] *)
Definition build_request (command : string) (kwargs : list (string * Json)) : Json :=
  JObj (dict_update [("command", JStr command)] kwargs).

Definition sent_on (request : Json) (c : Client) : Client :=
  match sock c with
  | Some s => mkClient (connected c) (sock c) (attempts c) (wire c ++ [(s, request)])
  | None => c
  end.

Definition mark_disconnected (c : Client) : Client :=
  mkClient false (sock c) (attempts c) (wire c).

(** The two [except] clauses for socket faults. *)
Definition on_socket_fault (e : SockErr) (c : Client) : Outcome Json * Client :=
  match e with
  | SockTimeout =>
      (Return (error_response "Timeout waiting for response from daemon"), c)
  | SockError text =>
      (Return (error_response ("Communication error: " ++ text)), mark_disconnected c)
  end.

(** [send_command(self, command, **kwargs)] *)
Definition send_command (command : string) (kwargs : list (string * Json))
    (reachable : bool) (io : Io) (c : Client) : Outcome Json * Client :=
  let (ok, c1) := _ensure_connected reachable c in
  if negb ok
  then (Return (error_response "Not connected to OSC daemon. Is osc_daemon.py running?"), c1)
  else
    let request := build_request command kwargs in
    match io with
    | IoSendFails e => on_socket_fault e c1
    | IoRecvFails e => on_socket_fault e (sent_on request c1)
    | IoClosed =>
        (Return (error_response "Connection closed by daemon"),
         mark_disconnected (sent_on request c1))
    | IoBadBytes text => (Raise (Exception text), sent_on request c1)
    | IoBadJson text =>
        (Return (error_response ("Invalid response from daemon: " ++ text)),
         sent_on request c1)
    | IoReply response => (Return response, sent_on request c1)
    end.

(** [send_osc(self, address, args=None)]: [args or []]. *)
Definition send_osc (address : string) (args : option (list Json)) :=
  send_command "send_message"
    [("address", JStr address);
     ("args", JList (match args with Some l => l | None => [] end))].

(** [get_daemon_status(self)] *)
Definition get_daemon_status := send_command "get_status" [].

(** [ping(self)] *)
Definition ping := send_command "ping" [].

End AbletonClient.

(** [format_response(response, success_key='data')] *)
Definition format_response (py_repr : Json -> string)
    (response : Json) (success_key : string) : Outcome string :=
  status <?~ py_get response "status" JNull ;;
  if py_eq_str status "success" then
    fallback <?~ py_get response "data" JNull ;;
    data <?~ py_get response success_key fallback ;;
    match data with
    | JList [item] => Return (py_str py_repr item)
    | JList items => Return (String.concat ", " (map (py_str py_repr) items))
    | _ => Return (py_str py_repr data)
    end
  else
    status <?~ py_get response "status" JNull ;;
    if py_eq_str status "sent" then Return "Command sent successfully"
    else
      status <?~ py_get response "status" JNull ;;
      if py_eq_str status "error" then
        message <?~ py_get response "message" (JStr "Unknown error") ;;
        Return ("Error: " ++ py_str py_repr message)
      else Return (py_str py_repr response).

Definition daemon_not_responding_text : string :=
  "OSC Daemon not responding. Is osc_daemon.py running?" ++ String "010" "Error: ".

Definition connection_successful_text : string :=
  "Connection successful! Ableton Live is responding via AbletonOSC.".

Definition ableton_not_responding_text : string :=
  "OSC Daemon is running, but Ableton Live is not responding." ++ String "010"
  ("Make sure:" ++ String "010"
  ("1. Ableton Live is running" ++ String "010"
   "2. AbletonOSC is selected as a Control Surface in Preferences > Link/Tempo/MIDI")).

(** What [test_connection] makes of the answer to [/live/test]
    (lines 1135-1140). *)
Definition judge_test_response (py_repr : Json -> string) (response : Json)
    : Outcome string :=
  status <?~ py_get response "status" JNull ;;
  if py_eq_str status "success" then Return connection_successful_text
  else
    status <?~ py_get response "status" JNull ;;
    mentions_timeout <?~
      (if py_eq_str status "error"
       then message <?~ py_get response "message" (JStr "") ;;
            py_in_str "Timeout" message
       else Return false) ;;
    if mentions_timeout then Return ableton_not_responding_text
    else
      text <?~ format_response py_repr response "data" ;;
      Return ("Connection test result: " ++ text).

(** The tool [test_connection()]: the status request, then the request to
    [/live/test]; each exchange has its own fate. *)
Definition test_connection (py_repr : Json -> string)
    (reachable1 : bool) (io1 : AbletonClient.Io)
    (reachable2 : bool) (io2 : AbletonClient.Io)
    (c : AbletonClient.Client) : Outcome string * AbletonClient.Client :=
  match AbletonClient.get_daemon_status reachable1 io1 c with
  | (Raise e, c1) => (Raise e, c1)
  | (Return daemon_status, c1) =>
      match py_get daemon_status "status" JNull with
      | Raise e => (Raise e, c1)
      | Return status =>
          if negb (py_eq_str status "ok") then
            (message <?~ py_get daemon_status "message" (JStr "Unknown error") ;;
             Return (daemon_not_responding_text ++ py_str py_repr message), c1)
          else
            match AbletonClient.send_osc "/live/test" None reachable2 io2 c1 with
            | (Raise e, c2) => (Raise e, c2)
            | (Return response, c2) => (judge_test_response py_repr response, c2)
            end
      end
  end.

(** The answer that comes back over a connection on which the daemon
    serves [request]: its response, or the end of the stream when the
    handler left its loop. *)
Definition exchange (py_repr : Json -> string) (request : Json)
    (send_exn : option string) (env : list EnvEvent) (d : Daemon) : AbletonClient.Io :=
  match result (_process_command py_repr request send_exn env d) with
  | Return response => AbletonClient.IoReply response
  | Raise _ => AbletonClient.IoClosed
  end.

(** A well-formed command of the kind that relays an OSC message. *)
Definition send_message_command (address : string) (args : list Json) : Json :=
  JObj [("command", JStr "send_message"); ("address", JStr address); ("args", JList args)].

(** ** Vocabulary of the properties *)

(** Number of entries of the registry filed under [address]. *)
Definition waiters_at (address : string) (d : Daemon) : nat :=
  length (filter (fun kv => kv.1 = address) (map_to_list (pending_responses d))).

(** Every future the registry refers to has been created. *)
Definition registry_wf (d : Daemon) : Prop :=
  forall a g, pending_responses d !! a = Some g -> g < length (futures d).

(** The lock discipline one would ask of every site: registry mutations and
    resolutions with the lock held, the blocking wait without it. *)
Definition guarded (e : Event) : bool :=
  match what e with
  | Await => negb (locked e)
  | _ => locked e
  end.

(** An event of the loop that can reach the waiter of [address] or the
    future [f] awaited for it. *)
Definition touches (address : string) (f : nat) (ev : EnvEvent) : bool :=
  match ev with
  | Inbound a _ => String.eqb a address
  | TaskRegisters a => String.eqb a address
  | TaskSends _ _ => false
  | TaskTimesOut a g => String.eqb a address || Nat.eqb g f
  | TaskSendFails a => String.eqb a address
  end.

(** An event of the loop that can complete the future [f] filed under
    [address]: a datagram for that address, or a foreign [cancel]. *)
Definition completes (address : string) (f : nat) (ev : EnvEvent) : bool :=
  match ev with
  | Inbound a _ => String.eqb a address
  | TaskTimesOut _ g => Nat.eqb g f
  | _ => false
  end.

Definition status_of (r : Json) : option Json :=
  match r with
  | JObj fields => assoc_get "status" fields
  | _ => None
  end.

Definition message_of (r : Json) : option Json :=
  match r with
  | JObj fields => assoc_get "message" fields
  | _ => None
  end.

Definition data_of (r : Json) : option Json :=
  match r with
  | JObj fields => assoc_get "data" fields
  | _ => None
  end.

(** The future [f] is still pending and no address but [address] leads
    to it. *)
Definition awaited (address : string) (f : nat) (d : Daemon) : Prop :=
  futures d !! f = Some FPending /\
  forall a, pending_responses d !! a = Some f -> a = address.

(** ... and it is the waiter filed under [address]. *)
Definition registered (address : string) (f : nat) (d : Daemon) : Prop :=
  pending_responses d !! address = Some f /\ awaited address f d.

(** The daemon at the moment [_send_osc_with_response] suspends in
    [wait_for]: waiter registered, datagram sent. *)
Definition awaiting (address : string) (args : Json) (d : Daemon) : Daemon :=
  mkDaemon (socket_port d) (ableton_host d) (ableton_port d) (receive_port d)
    (<[address := length (futures d)]> (pending_responses d))
    (futures d ++ [FPending]) false (osc_out d ++ [(address, args)])
    (trace d ++ [mkEvent InSendOscWithResponse (Insert address) true;
                 mkEvent InSendOscWithResponse Await false]).

(** The discipline asked of the events of one site only. *)
Definition guarded_at (w : Site) (e : Event) : Prop :=
  who e = w -> guarded e = true.

(** [message.get('args', [])] and [message.get('command')] on the items of
    a command. *)
Definition args_of (fields : list (string * Json)) : Json :=
  match assoc_get "args" fields with
  | Some v => v
  | None => JList []
  end.

Definition command_of (fields : list (string * Json)) : Json :=
  match assoc_get "command" fields with
  | Some v => v
  | None => JNull
  end.

(** The future [f] is still pending and the registry no longer leads to
    it: its waiter was overwritten or removed. *)
Definition orphaned (f : nat) (d : Daemon) : Prop :=
  futures d !! f = Some FPending /\
  forall a, pending_responses d !! a <> Some f.

(** An event of the loop in which another task cancels the future [f]. *)
Definition cancels (f : nat) (ev : EnvEvent) : bool :=
  match ev with
  | TaskTimesOut _ g => Nat.eqb g f
  | _ => false
  end.

(** An event of the loop in which another task sends a datagram. *)
Definition sends (ev : EnvEvent) : bool :=
  match ev with
  | TaskSends _ _ => true
  | _ => false
  end.

(** What a run of [_handle_socket_client] wrote, how it left the
    connection, and the daemon after it. *)
Definition written (r : (list Json * Conn) * Daemon) : list Json := fst (fst r).
Definition conn_of (r : (list Json * Conn) * Daemon) : Conn := snd (fst r).
Definition daemon_of (r : (list Json * Conn) * Daemon) : Daemon := snd r.

(** A read that carries a [get_status] or a [ping] command. *)
Definition is_query (rd : Read) : Prop :=
  match rd with
  | ReadCommand (JObj fields) _ _ =>
      command_of fields = JStr "get_status" \/ command_of fields = JStr "ping"
  | _ => False
  end.

(** An exchange after which the client holds itself disconnected: the
    stream ended, or a socket fault other than a timeout. *)
Definition drops (io : AbletonClient.Io) : bool :=
  match io with
  | AbletonClient.IoClosed => true
  | AbletonClient.IoSendFails (AbletonClient.SockError _) => true
  | AbletonClient.IoRecvFails (AbletonClient.SockError _) => true
  | _ => false
  end.

(** An exchange in which [sendall] took the request. *)
Definition takes_request (io : AbletonClient.Io) : bool :=
  match io with
  | AbletonClient.IoSendFails _ => false
  | _ => true
  end.

(** ** What each step does to the daemon *)

Ltac unfold_ops :=
  unfold register_waiter, remove_waiter, dict_in, dict_get, dict_set, dict_del,
    new_future, future_done, set_result, cancel, send_message, note, acquire,
    release, bind, ret, raise, try_except in *.

Lemma register_waiter_run address d :
  register_waiter address d =
  (Return (length (futures d)),
   mkDaemon (socket_port d) (ableton_host d) (ableton_port d) (receive_port d)
     (<[address := length (futures d)]> (pending_responses d))
     (futures d ++ [FPending]) false (osc_out d)
     (trace d ++ [mkEvent InSendOscWithResponse (Insert address) true])).
Proof. reflexivity. Qed.

Lemma remove_waiter_run address d :
  remove_waiter address d =
  (Return tt,
   mkDaemon (socket_port d) (ableton_host d) (ableton_port d) (receive_port d)
     (delete address (pending_responses d)) (futures d) false (osc_out d)
     (trace d ++ match pending_responses d !! address with
                 | Some _ => [mkEvent InSendOscWithResponse (Delete address) true]
                 | None => []
                 end)).
Proof.
  unfold_ops. simpl.
  destruct (pending_responses d !! address) as [g|] eqn:E; simpl.
  - rewrite E. reflexivity.
  - unfold set_lock. simpl. rewrite delete_id by exact E.
    rewrite app_nil_r. reflexivity.
Qed.

Lemma handle_ableton_message_run address args d :
  _handle_ableton_message address args d =
  match pending_responses d !! address with
  | None => (Return tt, d)
  | Some f =>
      (Return tt,
       mkDaemon (socket_port d) (ableton_host d) (ableton_port d) (receive_port d)
         (delete address (pending_responses d))
         (match futures d !! f with
          | Some FPending => <[f := FResult (success_envelope address args)]> (futures d)
          | _ => futures d
          end)
         (response_lock d) (osc_out d)
         (trace d ++
          match futures d !! f with
          | Some FPending =>
              [mkEvent InHandleAbletonMessage (Resolve address) (response_lock d);
               mkEvent InHandleAbletonMessage (Delete address) (response_lock d)]
          | _ => [mkEvent InHandleAbletonMessage (Delete address) (response_lock d)]
          end))
  end.
Proof.
  unfold _handle_ableton_message. unfold_ops. simpl.
  destruct (pending_responses d !! address) as [f|] eqn:E; simpl; [|reflexivity].
  destruct (futures d !! f) as [[| r |]|] eqn:F;
    repeat (progress (rewrite ?E, ?F; simpl));
    unfold set_pending, set_futures, set_trace; simpl;
    rewrite <- ?app_assoc; reflexivity.
Qed.

Lemma cancel_run f d :
  cancel f d =
  (Return tt,
   match futures d !! f with
   | Some FPending => set_futures (<[f := FCancelled]> (futures d)) d
   | _ => d
   end).
Proof.
  unfold cancel. destruct (futures d !! f) as [[| r |]|]; reflexivity.
Qed.

Lemma env_event_pending ev d :
  pending_responses (after (run_env_event ev d)) =
  match ev with
  | Inbound a _ => delete a (pending_responses d)
  | TaskRegisters a => <[a := length (futures d)]> (pending_responses d)
  | TaskSends _ _ => pending_responses d
  | TaskTimesOut a _ => delete a (pending_responses d)
  | TaskSendFails a => delete a (pending_responses d)
  end.
Proof.
  destruct ev as [a args | a | a args | a g | a]; unfold after, run_env_event, bind.
  - rewrite handle_ableton_message_run.
    destruct (pending_responses d !! a) eqn:E; simpl; [reflexivity|].
    symmetry. apply delete_id. exact E.
  - unfold bind. rewrite register_waiter_run. reflexivity.
  - reflexivity.
  - unfold bind. rewrite cancel_run, remove_waiter_run. simpl.
    destruct (futures d !! g) as [[| r |]|]; reflexivity.
  - rewrite remove_waiter_run. reflexivity.
Qed.

Lemma env_event_futures ev d :
  futures (after (run_env_event ev d)) =
  match ev with
  | Inbound a args =>
      match pending_responses d !! a with
      | Some f =>
          match futures d !! f with
          | Some FPending => <[f := FResult (success_envelope a args)]> (futures d)
          | _ => futures d
          end
      | None => futures d
      end
  | TaskRegisters _ => (futures d ++ [FPending])%list
  | TaskTimesOut _ g =>
      match futures d !! g with
      | Some FPending => <[g := FCancelled]> (futures d)
      | _ => futures d
      end
  | _ => futures d
  end.
Proof.
  destruct ev as [a args | a | a args | a g | a]; unfold after, run_env_event, bind.
  - rewrite handle_ableton_message_run.
    destruct (pending_responses d !! a); reflexivity.
  - unfold bind. rewrite register_waiter_run. reflexivity.
  - reflexivity.
  - unfold bind. rewrite cancel_run, remove_waiter_run. simpl.
    destruct (futures d !! g) as [[| r |]|]; reflexivity.
  - rewrite remove_waiter_run. reflexivity.
Qed.

(** The trace only grows, and a step of the loop leaves the lock as free
    as it found it when it was free. *)
Lemma env_event_trace ev d :
  exists evs,
    trace (after (run_env_event ev d)) = (trace d ++ evs)%list /\
    Forall (fun e => who e = InSendOscWithResponse -> guarded e = true) evs /\
    Forall (fun e => who e = InHandleAbletonMessage -> locked e = response_lock d) evs.
Proof.
  destruct ev as [a args | a | a args | a g | a]; unfold after, run_env_event, bind.
  - rewrite handle_ableton_message_run.
    destruct (pending_responses d !! a) as [f|]; simpl.
    + eexists; split; [reflexivity|].
      destruct (futures d !! f) as [[| r |]|]; split;
        repeat constructor; simpl; intros; congruence.
    + exists []. rewrite app_nil_r. repeat constructor.
  - unfold bind. rewrite register_waiter_run. simpl.
    eexists; split; [reflexivity|]. split; repeat constructor; simpl; congruence.
  - exists []. rewrite app_nil_r. repeat constructor.
  - unfold bind. rewrite cancel_run, remove_waiter_run. simpl.
    eexists; split.
    + destruct (futures d !! g) as [[| r |]|]; reflexivity.
    + destruct (pending_responses _ !! a); split; repeat constructor; simpl; congruence.
  - rewrite remove_waiter_run. simpl.
    eexists; split; [reflexivity|].
    destruct (pending_responses d !! a); split; repeat constructor; simpl; congruence.
Qed.

(** ** Waiting *)

Lemma wait_for_done f env d r :
  futures d !! f = Some (FResult r) -> wait_for f env d = (Return r, d).
Proof. intros H. destruct env; simpl; rewrite H; reflexivity. Qed.

Lemma wait_for_pending_cons f ev env d :
  futures d !! f = Some FPending ->
  wait_for f (ev :: env) d = wait_for f env (after (run_env_event ev d)).
Proof. intros H. simpl. rewrite H. reflexivity. Qed.

Lemma wait_for_pending_nil f d :
  futures d !! f = Some FPending ->
  wait_for f [] d = (Raise TimeoutError, set_futures (<[f := FCancelled]> (futures d)) d).
Proof. intros H. simpl. rewrite H. unfold bind. rewrite cancel_run, H. reflexivity. Qed.

Lemma touches_completes address f ev :
  touches address f ev = false -> completes address f ev = false.
Proof.
  destruct ev; simpl; try reflexivity; try tauto.
  intros H. apply orb_false_elim in H. tauto.
Qed.

Lemma awaited_step address f ev d :
  awaited address f d ->
  completes address f ev = false ->
  awaited address f (after (run_env_event ev d)).
Proof.
  intros [Hf Hkey] Hev. unfold awaited.
  rewrite env_event_futures, env_event_pending.
  assert (Hlt : f < length (futures d)) by (eapply lookup_lt_Some; exact Hf).
  destruct ev as [a args | a | a args | a g | a]; simpl in Hev.
  - apply String.eqb_neq in Hev. split.
    + destruct (pending_responses d !! a) as [g|] eqn:E; [|exact Hf].
      assert (g <> f) by (intros ->; apply Hev, Hkey, E).
      destruct (futures d !! g) as [[| r |]|]; try exact Hf.
      rewrite list_lookup_insert_ne by assumption. exact Hf.
    + intros a' Ha'. apply lookup_delete_Some in Ha'. apply Hkey, Ha'.
  - split.
    + rewrite lookup_app_l by exact Hlt. exact Hf.
    + intros a' Ha'. apply lookup_insert_Some in Ha'.
      destruct Ha' as [[_ Heq] | [_ Hold]]; [lia | apply Hkey, Hold].
  - split; assumption.
  - apply Nat.eqb_neq in Hev. split.
    + destruct (futures d !! g) as [[| r |]|]; try exact Hf.
      rewrite list_lookup_insert_ne by assumption. exact Hf.
    + intros a' Ha'. apply lookup_delete_Some in Ha'. apply Hkey, Ha'.
  - split; [exact Hf|].
    intros a' Ha'. apply lookup_delete_Some in Ha'. apply Hkey, Ha'.
Qed.

Lemma registered_step address f ev d :
  registered address f d ->
  touches address f ev = false ->
  registered address f (after (run_env_event ev d)).
Proof.
  intros [Hreg Haw] Hev. split.
  - rewrite env_event_pending.
    destruct ev as [a args | a | a args | a g | a]; simpl in Hev;
      try (apply orb_false_elim in Hev; destruct Hev as [Hev _]);
      try apply String.eqb_neq in Hev.
    + rewrite lookup_delete_ne by exact Hev. exact Hreg.
    + rewrite lookup_insert_ne by exact Hev. exact Hreg.
    + exact Hreg.
    + rewrite lookup_delete_ne by exact Hev. exact Hreg.
    + rewrite lookup_delete_ne by exact Hev. exact Hreg.
  - apply awaited_step; [exact Haw | apply touches_completes, Hev].
Qed.

(** With no datagram for the address before the deadline the wait expires. *)
Lemma wait_for_times_out address f env : forall d,
  awaited address f d ->
  forallb (fun ev => negb (completes address f ev)) env = true ->
  result (wait_for f env d) = Raise TimeoutError.
Proof.
  induction env as [|ev env IH]; intros d Haw Henv.
  - rewrite wait_for_pending_nil by apply Haw. reflexivity.
  - simpl in Henv. apply andb_prop in Henv. destruct Henv as [Hev Henv].
    apply negb_true_iff in Hev.
    rewrite wait_for_pending_cons by apply Haw.
    apply IH; [apply awaited_step; assumption | exact Henv].
Qed.

(** The first datagram for the address resolves the wait with its
    arguments, and takes the waiter out of the registry. *)
Lemma wait_for_resolved address f data post pre : forall d,
  registered address f d ->
  forallb (fun ev => negb (touches address f ev)) pre = true ->
  exists d',
    wait_for f (pre ++ Inbound address data :: post) d =
      (Return (success_envelope address data), d') /\
    pending_responses d' !! address = None.
Proof.
  induction pre as [|ev pre IH]; intros d Hreg Hpre.
  - destruct Hreg as [Hreg [Hf _]]. simpl app.
    rewrite wait_for_pending_cons by exact Hf.
    eexists. split.
    + apply wait_for_done. rewrite env_event_futures, Hreg, Hf.
      apply list_lookup_insert_eq. eapply lookup_lt_Some. exact Hf.
    + rewrite env_event_pending. apply lookup_delete_eq.
  - simpl in Hpre. apply andb_prop in Hpre. destruct Hpre as [Hev Hpre].
    apply negb_true_iff in Hev. simpl app.
    rewrite wait_for_pending_cons by apply Hreg.
    apply IH; [apply registered_step; assumption | exact Hpre].
Qed.

(** Whatever the loop runs during the wait, the events of the coroutine
    keep the discipline. *)
Lemma wait_for_trace f env : forall d,
  exists evs,
    trace (after (wait_for f env d)) = (trace d ++ evs)%list /\
    Forall (guarded_at InSendOscWithResponse) evs.
Proof.
  induction env as [|ev env IH]; intros d.
  - simpl. destruct (futures d !! f) as [[| r |]|] eqn:F.
    + unfold bind. rewrite cancel_run, F. exists []. rewrite app_nil_r. split; constructor.
    + exists []. rewrite app_nil_r. split; constructor.
    + exists []. rewrite app_nil_r. split; constructor.
    + exists []. rewrite app_nil_r. split; constructor.
  - simpl. destruct (futures d !! f) as [[| r |]|] eqn:F;
      try (exists []; rewrite app_nil_r; split; constructor).
    destruct (env_event_trace ev d) as (evs1 & E1 & G1 & _).
    destruct (IH (after (run_env_event ev d))) as (evs2 & E2 & G2).
    exists (evs1 ++ evs2)%list. split.
    + rewrite E2, E1, app_assoc. reflexivity.
    + apply Forall_app. split; assumption.
Qed.

(** The wait never ends in an Exception: it returns what a datagram
    handler stored in the future, expires, or finds the future cancelled. *)
Lemma wait_for_outcome f env : forall d,
  futures d !! f = Some FPending \/ (exists a data, futures d !! f = Some (FResult (success_envelope a data)))
  \/ futures d !! f = Some FCancelled ->
  (exists a data, result (wait_for f env d) = Return (success_envelope a data)) \/
  result (wait_for f env d) = Raise TimeoutError \/
  result (wait_for f env d) = Raise CancelledError.
Proof.
  induction env as [|ev env IH]; intros d [F | [(a & data & F) | F]].
  - rewrite wait_for_pending_nil by exact F. right. left. reflexivity.
  - rewrite (wait_for_done _ _ _ _ F). left. eauto.
  - simpl. rewrite F. right. right. reflexivity.
  - rewrite wait_for_pending_cons by exact F. apply IH.
    rewrite env_event_futures.
    assert (Hlt : f < length (futures d)) by (eapply lookup_lt_Some; exact F).
    destruct ev as [a args | a | a args | a g | a]; auto.
    + destruct (pending_responses d !! a) as [g|]; auto.
      destruct (futures d !! g) as [[| r |]|] eqn:G; auto.
      destruct (decide (g = f)) as [-> | Hne].
      * right. left. exists a, args. apply list_lookup_insert_eq. exact Hlt.
      * left. rewrite list_lookup_insert_ne by exact Hne. exact F.
    + left. rewrite lookup_app_l by exact Hlt. exact F.
    + destruct (futures d !! g) as [[| r |]|] eqn:G; auto.
      destruct (decide (g = f)) as [-> | Hne].
      * right. right. apply list_lookup_insert_eq. exact Hlt.
      * left. rewrite list_lookup_insert_ne by exact Hne. exact F.
  - rewrite (wait_for_done _ _ _ _ F). left. eauto.
  - simpl. rewrite F. right. right. reflexivity.
Qed.

(** ** The two ways out of [_send_osc_with_response] *)

Lemma send_osc_with_response_send_fails address args text env d :
  _send_osc_with_response address args (Some text) env d =
  (Return (error_envelope (send_error_message text) address),
   mkDaemon (socket_port d) (ableton_host d) (ableton_port d) (receive_port d)
     (delete address (pending_responses d)) (futures d ++ [FPending]) false (osc_out d)
     (trace d ++ [mkEvent InSendOscWithResponse (Insert address) true;
                  mkEvent InSendOscWithResponse (Delete address) true])).
Proof.
  unfold _send_osc_with_response, bind, try_except.
  rewrite register_waiter_run. unfold send_message.
  rewrite remove_waiter_run. unfold ret. simpl.
  rewrite lookup_insert_eq, delete_insert_eq, <- app_assoc. reflexivity.
Qed.

Lemma send_osc_with_response_sent address args env d :
  _send_osc_with_response address args None env d =
  match wait_for (length (futures d)) env (awaiting address args d) with
  | (Return r, d') => (Return r, d')
  | (Raise TimeoutError, d') =>
      (Return (error_envelope (timeout_message address) address),
       after (remove_waiter address d'))
  | (Raise (Exception text), d') =>
      (Return (error_envelope (send_error_message text) address),
       after (remove_waiter address d'))
  | (Raise CancelledError, d') => (Raise CancelledError, d')
  end.
Proof.
  unfold _send_osc_with_response, bind, try_except.
  rewrite register_waiter_run. unfold send_message, note, ret, raise. simpl.
  unfold set_osc_out, set_trace. simpl. rewrite <- app_assoc. simpl.
  fold (awaiting address args d).
  destruct (wait_for (length (futures d)) env (awaiting address args d)) as [[r | [| | text]] d'];
    try reflexivity;
    destruct (remove_waiter address d') as [[[] | e] d''] eqn:R;
    rewrite remove_waiter_run in R; inversion R; reflexivity.
Qed.

Lemma awaiting_registered address args d :
  registry_wf d ->
  registered address (length (futures d)) (awaiting address args d).
Proof.
  intros Hwf. unfold registered, awaited, awaiting. simpl. repeat split.
  - apply lookup_insert_eq.
  - apply list_lookup_middle. reflexivity.
  - intros a Ha. apply lookup_insert_Some in Ha.
    destruct Ha as [[Heq _] | [_ Hold]]; [congruence|].
    apply Hwf in Hold. lia.
Qed.

Lemma expects_response_nonempty address :
  _expects_response address = true -> address <> "".
Proof. intros H ->. vm_compute in H. discriminate. Qed.

(** ** Dispatch of a [send_message] command *)

Lemma process_command_send_message py_repr fields address send_exn env d :
  assoc_get "command" fields = Some (JStr "send_message") ->
  assoc_get "address" fields = Some (JStr address) ->
  address <> "" ->
  _process_command py_repr (JObj fields) send_exn env d =
  if _expects_response address
  then _send_osc_with_response address (args_of fields) send_exn env d
  else _send_osc_fire_and_forget address (args_of fields) send_exn d.
Proof.
  intros Hc Ha Hne.
  unfold _process_command, message_get, bind, ret, args_of. rewrite Hc, Ha. simpl.
  destruct address as [|c rest]; [congruence|]. simpl.
  destruct (_expects_response (String c rest)); reflexivity.
Qed.

Lemma process_command_falsy_address py_repr fields address send_exn env d :
  assoc_get "command" fields = Some (JStr "send_message") ->
  match assoc_get "address" fields with Some v => v | None => JNull end = address ->
  py_truthy address = false ->
  _process_command py_repr (JObj fields) send_exn env d = (Return missing_address_envelope, d).
Proof.
  intros Hc Ha Hf.
  unfold _process_command, message_get, bind, ret. rewrite Hc, Ha. simpl.
  rewrite Hf. reflexivity.
Qed.

(** ** Counting the entries of the registry *)

Lemma filter_key_length (l : list (string * nat)) (a : string) :
  NoDup l.*1 -> length (filter (fun kv => kv.1 = a) l) <= 1.
Proof.
  induction l as [|[k v] l IH]; intros Hnd; simpl; [lia|].
  apply NoDup_cons in Hnd. destruct Hnd as [Hk Hnd].
  destruct (decide (k = a)) as [-> | Hne].
  - rewrite filter_cons_True by reflexivity. simpl.
    assert (E : filter (fun kv : string * nat => kv.1 = a) l = []).
    { destruct (filter (fun kv : string * nat => kv.1 = a) l) as [|[k' v'] t] eqn:F;
        [reflexivity|].
      exfalso. apply Hk.
      assert (Hin : (k', v') ∈ filter (fun kv : string * nat => kv.1 = a) l)
        by (rewrite F; left).
      apply list_elem_of_filter in Hin. destruct Hin as [Hk' Hin]. simpl in Hk'. subst k'.
      apply list_elem_of_fmap. exists (a, v'). split; [reflexivity | exact Hin]. }
    rewrite E. simpl. lia.
  - rewrite filter_cons_False by (simpl; exact Hne). apply IH, Hnd.
Qed.

Lemma waiters_at_le a d : waiters_at a d <= 1.
Proof. apply filter_key_length, NoDup_fst_map_to_list. Qed.

Lemma waiters_at_present a f d :
  pending_responses d !! a = Some f -> waiters_at a d = 1.
Proof.
  intros H. pose proof (waiters_at_le a d) as Hle.
  assert (Hin : (a, f) ∈ filter (fun kv : string * nat => kv.1 = a)
                              (map_to_list (pending_responses d))).
  { apply list_elem_of_filter. split; [reflexivity|]. apply elem_of_map_to_list, H. }
  unfold waiters_at in *.
  destruct (filter _ (map_to_list (pending_responses d))) as [|x t];
    [inversion Hin | simpl in *; lia].
Qed.



(** ** What [_send_osc_with_response] leaves behind *)

Lemma send_osc_with_response_trace address args send_exn env d :
  exists evs,
    trace (after (_send_osc_with_response address args send_exn env d)) =
      (trace d ++ mkEvent InSendOscWithResponse (Insert address) true :: evs)%list /\
    Forall (guarded_at InSendOscWithResponse) evs /\
    (send_exn = None -> head evs = Some (mkEvent InSendOscWithResponse Await false)).
Proof.
  destruct send_exn as [text|].
  - rewrite send_osc_with_response_send_fails. unfold after. simpl.
    eexists. split; [reflexivity|]. split; [|discriminate].
    repeat constructor.
  - rewrite send_osc_with_response_sent.
    destruct (wait_for_trace (length (futures d)) env (awaiting address args d))
      as (evs & E & G).
    destruct (wait_for (length (futures d)) env (awaiting address args d))
      as [[r | [| | text]] d'];
      unfold after in *; simpl in E; simpl snd; rewrite ?remove_waiter_run; simpl;
      rewrite E, <- ?app_assoc; simpl;
      eexists; (split; [reflexivity|]); (split; [|reflexivity]);
      constructor; try (intros _; reflexivity);
      try exact G;
      apply Forall_app; (split; [exact G|]);
      destruct (pending_responses d' !! address); repeat constructor.
Qed.


Lemma send_osc_with_response_outcome address args send_exn env d :
  (exists a data,
     result (_send_osc_with_response address args send_exn env d)
       = Return (success_envelope a data)) \/
  (exists message,
     result (_send_osc_with_response address args send_exn env d)
       = Return (error_envelope message address)) \/
  result (_send_osc_with_response address args send_exn env d) = Raise CancelledError.
Proof.
  destruct send_exn as [text|].
  - rewrite send_osc_with_response_send_fails. right. left. eexists. reflexivity.
  - rewrite send_osc_with_response_sent.
    destruct (wait_for_outcome (length (futures d)) env (awaiting address args d))
      as [(a & data & H) | [H | H]].
    + left. unfold awaiting. simpl. apply list_lookup_middle. reflexivity.
    + left. exists a, data.
      destruct (wait_for _ env _) as [o d']. unfold result in *. simpl in *.
      subst o. reflexivity.
    + right. left. eexists.
      destruct (wait_for _ env _) as [o d']. unfold result in *. simpl in *.
      subst o. reflexivity.
    + right. right.
      destruct (wait_for _ env _) as [o d']. unfold result in *. simpl in *.
      subst o. reflexivity.
Qed.

Lemma send_osc_fire_and_forget_run address args send_exn d :
  _send_osc_fire_and_forget address args send_exn d =
  match send_exn with
  | None => (Return (sent_envelope address), set_osc_out (osc_out d ++ [(address, args)]) d)
  | Some text => (Return (error_envelope (send_error_message text) address), d)
  end.
Proof. destruct send_exn; reflexivity. Qed.

(** ** The claims *)

(** C8.  When [send_message] raises inside [_send_osc_with_response], the
    caller gets an [error] envelope that carries the text of the fault, and
    the waiter registered for the address is out of the registry again; no
    datagram went out. *)
Theorem send_failure_removes_waiter d address args text env :
  let r := _send_osc_with_response address args (Some text) env d in
  result r = Return (error_envelope (send_error_message text) address) /\
  status_of (error_envelope (send_error_message text) address) = Some (JStr "error") /\
  message_of (error_envelope (send_error_message text) address)
    = Some (JStr ("Error sending OSC message: " ++ text)) /\
  pending_responses (after r) !! address = None /\
  pending_responses (after r) = delete address (pending_responses d) /\
  osc_out (after r) = osc_out d.
Proof.
  intros r. subst r. rewrite send_osc_with_response_send_fails.
  unfold result, after. simpl. repeat split. apply lookup_delete_eq.
Qed.

(** C4.  When the wait of [_send_osc_with_response] elapses (no datagram
    for the address reaches the daemon before the deadline), the call
    returns an [error] envelope whose message names the address and differs
    from every send-failure message, and the address has no entry in the
    registry afterwards, so that a datagram arriving late finds nothing to
    resolve and changes nothing. *)
Theorem timeout_yields_error_and_frees_slot d address args env :
  registry_wf d ->
  forallb (fun ev => negb (completes address (length (futures d)) ev)) env = true ->
  let r := _send_osc_with_response address args None env d in
  result r = Return (error_envelope (timeout_message address) address) /\
  status_of (error_envelope (timeout_message address) address) = Some (JStr "error") /\
  message_of (error_envelope (timeout_message address) address)
    = Some (JStr ("Timeout waiting for response to " ++ address)) /\
  (forall text, timeout_message address <> send_error_message text) /\
  pending_responses (after r) !! address = None /\
  (forall data, _handle_ableton_message address data (after r) = (Return tt, after r)).
Proof.
  intros Hwf Henv r. subst r.
  assert (Hw := wait_for_times_out address (length (futures d)) env
                  (awaiting address args d)
                  (proj2 (awaiting_registered address args d Hwf)) Henv).
  rewrite send_osc_with_response_sent.
  destruct (wait_for (length (futures d)) env (awaiting address args d)) as [o d'].
  unfold result in Hw. simpl in Hw. subst o.
  assert (Hgone : pending_responses (after (remove_waiter address d')) !! address = None).
  { rewrite remove_waiter_run. unfold after. simpl. apply lookup_delete_eq. }
  unfold result. simpl fst. unfold after at 1 2 3. simpl snd.
  repeat split; try assumption.
  - intros text. unfold timeout_message, send_error_message. simpl. discriminate.
  - intros data. rewrite handle_ableton_message_run, Hgone. reflexivity.
Qed.

(** C7, as the code has it.  A [send_message] command for a
    response-bearing address, whose datagram goes out and is followed,
    before the deadline and before anything else reaches its waiter (no
    other request registers, times out or fails on the same address, the
    registry holding one waiter per address), by a datagram for the same
    address, returns a [success] envelope whose data are the arguments of
    that datagram, in their order. *)
Theorem correlated_reply_yields_success py_repr d fields address data pre post :
  assoc_get "command" fields = Some (JStr "send_message") ->
  assoc_get "address" fields = Some (JStr address) ->
  _expects_response address = true ->
  registry_wf d ->
  forallb (fun ev => negb (touches address (length (futures d)) ev)) pre = true ->
  exists response,
    result (_process_command py_repr (JObj fields) None
              (pre ++ Inbound address data :: post) d) = Return response /\
    status_of response = Some (JStr "success") /\
    data_of response = Some (JList data).
Proof.
  intros Hc Ha Hexp Hwf Hpre.
  rewrite (process_command_send_message py_repr fields address) by
    (try assumption; apply expects_response_nonempty, Hexp).
  rewrite Hexp, send_osc_with_response_sent.
  destruct (wait_for_resolved address (length (futures d)) data post pre
              (awaiting address (args_of fields) d)
              (awaiting_registered address (args_of fields) d Hwf) Hpre)
    as (d' & Hw & _).
  rewrite Hw. exists (success_envelope address data). repeat split.
Qed.


(** C6, as the code has it.  [_process_command] knows the three kinds
    [send_message], [get_status] and [ping]: the last two are answered with
    the status snapshot and with [pong], the first is never answered with
    the unknown-command envelope.  Any other value of the [command] field,
    a missing one included, is answered with an [error] envelope whose
    message is [Unknown command: ] followed by that value, and changes
    nothing. *)
Theorem dispatcher_command_kinds py_repr d fields send_exn env :
  let r := _process_command py_repr (JObj fields) send_exn env d in
  (command_of fields = JStr "get_status" -> r = (Return (status_envelope d), d)) /\
  (command_of fields = JStr "ping" -> r = (Return pong_envelope, d)) /\
  (command_of fields = JStr "send_message" ->
     forall c, result r <> Return (unknown_command_envelope py_repr c)) /\
  (command_of fields <> JStr "send_message" ->
   command_of fields <> JStr "get_status" ->
   command_of fields <> JStr "ping" ->
     r = (Return (unknown_command_envelope py_repr (command_of fields)), d) /\
     status_of (unknown_command_envelope py_repr (command_of fields))
       = Some (JStr "error") /\
     message_of (unknown_command_envelope py_repr (command_of fields))
       = Some (JStr ("Unknown command: " ++ py_str py_repr (command_of fields)))).
Proof.
  intros r. subst r.
  unfold _process_command, message_get, bind, ret. fold (command_of fields).
  repeat split.
  - intros ->. reflexivity.
  - intros ->. reflexivity.
  - intros -> c. simpl.
    destruct (py_truthy _) eqn:T; simpl.
    + destruct (match assoc_get "address" fields with Some v => v | None => JNull end)
        as [| b | n | m e | a | items | o]; try (unfold result, raise; simpl; discriminate).
      destruct (_expects_response a).
      * destruct (send_osc_with_response_outcome a
                    (match assoc_get "args" fields with Some v => v | None => JList [] end)
                    send_exn env d) as [(a' & data & H) | [(m & H) | H]];
          rewrite H; discriminate.
      * rewrite send_osc_fire_and_forget_run.
        destruct send_exn; unfold result; simpl; discriminate.
    + unfold result. simpl. discriminate.
  - destruct (command_of fields) as [| b | n | m e | k | items | o]; simpl; try reflexivity.
    destruct (String.eqb k "send_message") eqn:E1;
      [apply String.eqb_eq in E1; congruence|].
    destruct (String.eqb k "get_status") eqn:E2;
      [apply String.eqb_eq in E2; congruence|].
    destruct (String.eqb k "ping") eqn:E3;
      [apply String.eqb_eq in E3; congruence|].
    reflexivity.
Qed.

(** C9.  A [send_message] command with no [address] field is answered with
    the [error] envelope [Missing OSC address]; the daemon is left exactly
    as it was, so nothing was sent and no waiter registered; and the read
    loop of the connection goes on to the next read with the answer
    written. *)
Theorem missing_address_rejected_connection_kept py_repr d fields send_exn env rest :
  assoc_get "command" fields = Some (JStr "send_message") ->
  assoc_get "address" fields = None ->
  _process_command py_repr (JObj fields) send_exn env d
    = (Return missing_address_envelope, d) /\
  status_of missing_address_envelope = Some (JStr "error") /\
  message_of missing_address_envelope = Some (JStr "Missing OSC address") /\
  _handle_socket_client py_repr (ReadCommand (JObj fields) send_exn env :: rest) d =
    (let '((written, conn), d') := _handle_socket_client py_repr rest d in
     ((missing_address_envelope :: written, conn), d')) /\
  _handle_socket_client py_repr [ReadCommand (JObj fields) send_exn env] d =
    (([missing_address_envelope], ConnOpen), d).
Proof.
  intros Hc Ha.
  assert (H : _process_command py_repr (JObj fields) send_exn env d
              = (Return missing_address_envelope, d)).
  { apply (process_command_falsy_address py_repr fields JNull); try assumption.
    - rewrite Ha. reflexivity.
    - reflexivity. }
  repeat split; try exact H; simpl; rewrite H; reflexivity.
Qed.

(** C10.  A [send_message] command whose [address] is the empty string is
    answered exactly as one without the field: the test [not address]
    holds, the answer is the [Missing OSC address] envelope and the daemon
    is left as it was. *)
Theorem empty_address_is_missing_address py_repr d fields fields' send_exn env :
  assoc_get "command" fields = Some (JStr "send_message") ->
  assoc_get "address" fields = Some (JStr "") ->
  assoc_get "command" fields' = Some (JStr "send_message") ->
  assoc_get "address" fields' = None ->
  _process_command py_repr (JObj fields) send_exn env d
    = _process_command py_repr (JObj fields') send_exn env d /\
  _process_command py_repr (JObj fields) send_exn env d
    = (Return missing_address_envelope, d).
Proof.
  intros Hc Ha Hc' Ha'.
  rewrite (process_command_falsy_address py_repr fields (JStr ""))
    by (try assumption; try reflexivity; rewrite Ha; reflexivity).
  rewrite (process_command_falsy_address py_repr fields' JNull)
    by (try assumption; try reflexivity; rewrite Ha'; reflexivity).
  split; reflexivity.
Qed.

(** C3.  [_handle_ableton_message] on a datagram [(address, args)].  With
    an entry for the address: the entry is removed, a future that is still
    pending gets the [success] envelope with exactly [args], no other
    future changes, and a further datagram for the address finds nothing,
    so the payload is handed over once.  Without an entry: the call
    returns and the daemon is as before.  Entries of other addresses stay
    as they are, and the handler never raises. *)
Theorem inbound_datagram_resolves_or_drops d address args :
  let r := _handle_ableton_message address args d in
  result r = Return tt /\
  match pending_responses d !! address with
  | Some f =>
      pending_responses (after r) = delete address (pending_responses d) /\
      pending_responses (after r) !! address = None /\
      (futures d !! f = Some FPending ->
         futures (after r) = <[f := FResult (success_envelope address args)]> (futures d) /\
         futures (after r) !! f = Some (FResult (success_envelope address args)) /\
         data_of (success_envelope address args) = Some (JList args)) /\
      (futures d !! f <> Some FPending -> futures (after r) = futures d) /\
      (forall args', _handle_ableton_message address args' (after r) = (Return tt, after r))
  | None => r = (Return tt, d)
  end /\
  (forall a, a <> address ->
     pending_responses (after r) !! a = pending_responses d !! a) /\
  osc_out (after r) = osc_out d.
Proof.
  intros r. subst r. rewrite handle_ableton_message_run.
  destruct (pending_responses d !! address) as [f|] eqn:E;
    unfold result, after; simpl.
  - split; [reflexivity|]. split; [|split; [|reflexivity]].
    + split; [reflexivity|]. split; [apply lookup_delete_eq|].
      split; [|split].
      * intros Hf. rewrite Hf. split; [reflexivity|]. split; [|reflexivity].
        apply list_lookup_insert_eq. eapply lookup_lt_Some. exact Hf.
      * intros Hf. destruct (futures d !! f) as [[| r |]|]; congruence.
      * intros args'. rewrite handle_ableton_message_run. simpl.
        rewrite lookup_delete_eq. reflexivity.
    + intros a Ha. apply lookup_delete_ne. congruence.
  - repeat split; reflexivity.
Qed.

(** C2.  The registry is a dict, so an address has at most one entry.
    Registering a waiter (lines 147-150) never raises; it files the new
    future under the address, in place of the entry that was there if
    there was one (the number of entries is then unchanged), and leaves the
    other addresses alone.  After any step of the daemon no address has
    two entries. *)
Theorem register_replaces_and_keeps_one_waiter d address :
  let r := register_waiter address d in
  result r = Return (length (futures d)) /\
  pending_responses (after r) = <[address := length (futures d)]> (pending_responses d) /\
  pending_responses (after r) !! address = Some (length (futures d)) /\
  waiters_at address (after r) = 1 /\
  (forall g, pending_responses d !! address = Some g ->
     size (pending_responses (after r)) = size (pending_responses d) /\
     (registry_wf d -> pending_responses (after r) !! address <> Some g)) /\
  (forall a, a <> address ->
     pending_responses (after r) !! a = pending_responses d !! a) /\
  (forall a ev, waiters_at a (after (run_env_event ev d)) <= 1) /\
  (forall a py_repr message send_exn env,
     waiters_at a (after (_process_command py_repr message send_exn env d)) <= 1).
Proof.
  intros r. subst r. rewrite register_waiter_run. unfold result, after. simpl.
  split; [reflexivity|]. split; [reflexivity|].
  split; [apply lookup_insert_eq|].
  split; [eapply waiters_at_present; simpl; apply lookup_insert_eq|].
  split; [|split; [|split]].
  - intros g Hg. split.
    + apply map_size_insert_Some. rewrite Hg. eexists. reflexivity.
    + intros Hwf. rewrite lookup_insert_eq. intros [= Heq].
      apply Hwf in Hg. lia.
  - intros a Ha. apply lookup_insert_ne. congruence.
  - intros a ev. apply waiters_at_le.
  - intros. apply waiters_at_le.
Qed.

(** C1, as the code has it.  Inside [_send_osc_with_response] the entry is
    inserted and removed with [_response_lock] held, and the coroutine
    awaits with the lock released, whatever the loop runs meanwhile.
    [_handle_ableton_message] resolves and removes without taking the
    lock: its events carry the state of the lock it found, and it leaves
    the lock in that state. *)
Theorem lock_discipline_of_send_osc_with_response d address args send_exn env :
  (exists evs,
     trace (after (_send_osc_with_response address args send_exn env d)) =
       (trace d ++ mkEvent InSendOscWithResponse (Insert address) true :: evs)%list /\
     Forall (guarded_at InSendOscWithResponse) evs /\
     (send_exn = None -> head evs = Some (mkEvent InSendOscWithResponse Await false))) /\
  (forall data,
     exists evs,
       trace (after (_handle_ableton_message address data d)) = (trace d ++ evs)%list /\
       Forall (fun e => who e = InHandleAbletonMessage /\ locked e = response_lock d) evs /\
       response_lock (after (_handle_ableton_message address data d)) = response_lock d).
Proof.
  split; [apply send_osc_with_response_trace|].
  intros data. rewrite handle_ableton_message_run.
  destruct (pending_responses d !! address) as [f|]; unfold after; simpl.
  - eexists. split; [reflexivity|]. split; [|reflexivity].
    destruct (futures d !! f) as [[| r |]|]; repeat constructor.
  - exists []. rewrite app_nil_r. repeat constructor.
Qed.

(** ** The claims on concrete runs *)

(** C1 as stated does not hold: in a run where the reply arrives, the
    datagram handler resolves the future and deletes the entry while the
    lock is free. *)
Lemma handler_mutates_without_lock :
  let r := _send_osc_with_response "/live/song/get/tempo" (JList []) None
             [Inbound "/live/song/get/tempo" [JFloat 120 0]] init in
  forallb guarded (trace (after r)) = false /\
  In (mkEvent InHandleAbletonMessage (Resolve "/live/song/get/tempo") false) (trace (after r)) /\
  In (mkEvent InHandleAbletonMessage (Delete "/live/song/get/tempo") false) (trace (after r)).
Proof. vm_compute. intuition. Qed.

(** C6 as stated does not hold: [relay] and [status] are not kinds the
    dispatcher knows. *)
Lemma relay_kind_not_recognised :
  _process_command (fun _ => "")
    (JObj [("command", JStr "relay"); ("address", JStr "/live/song/get/tempo");
           ("args", JList [])]) None [] init
  = (Return (JObj [("status", JStr "error");
                   ("message", JStr "Unknown command: relay")]), init) /\
  _process_command (fun _ => "") (JObj [("command", JStr "status")]) None [] init
  = (Return (JObj [("status", JStr "error");
                   ("message", JStr "Unknown command: status")]), init).
Proof. split; reflexivity. Qed.

(** C7 as stated does not hold: when a second request for the same address
    registers during the wait, the matching datagram that arrives before
    the deadline resolves the second waiter, and the first command ends in
    the timeout error. *)
Lemma concurrent_registration_steals_reply :
  _expects_response "/live/song/get/tempo" = true /\
  In (Inbound "/live/song/get/tempo" [JFloat 120 0])
     [TaskRegisters "/live/song/get/tempo";
      Inbound "/live/song/get/tempo" [JFloat 120 0]] /\
  result (_process_command (fun _ => "")
            (send_message_command "/live/song/get/tempo" []) None
            [TaskRegisters "/live/song/get/tempo";
             Inbound "/live/song/get/tempo" [JFloat 120 0]] init)
    = Return (error_envelope "Timeout waiting for response to /live/song/get/tempo"
                "/live/song/get/tempo") /\
  status_of (error_envelope "Timeout waiting for response to /live/song/get/tempo"
               "/live/song/get/tempo") <> Some (JStr "success").
Proof.
  split; [reflexivity|]. split; [right; left; reflexivity|].
  split; [reflexivity | discriminate].
Qed.

Lemma timeout_yields_error_and_frees_slot_witness :
  registry_wf init /\
  forallb (fun ev => negb (completes "/live/song/get/tempo" (length (futures init)) ev))
    [Inbound "/live/track/get/volume" [JInt 0]; TaskRegisters "/live/song/get/tempo"] = true /\
  let r := _send_osc_with_response "/live/song/get/tempo" (JList []) None
             [Inbound "/live/track/get/volume" [JInt 0];
              TaskRegisters "/live/song/get/tempo"] init in
  result r = Return (error_envelope "Timeout waiting for response to /live/song/get/tempo"
                       "/live/song/get/tempo") /\
  pending_responses (after r) !! "/live/song/get/tempo" = None.
Proof.
  assert (Hwf : registry_wf init).
  { intros a g H. simpl in H. rewrite lookup_empty in H. discriminate H. }
  split; [exact Hwf|]. split; [reflexivity|].
  pose proof (timeout_yields_error_and_frees_slot init "/live/song/get/tempo" (JList [])
                [Inbound "/live/track/get/volume" [JInt 0];
                 TaskRegisters "/live/song/get/tempo"] Hwf eq_refl) as H.
  simpl in H. destruct H as (H1 & _ & _ & _ & H2 & _).
  split; [exact H1 | exact H2].
Defined.

Lemma correlated_reply_yields_success_witness :
  exists response,
    result (_process_command (fun _ => "")
              (send_message_command "/live/song/get/tempo" []) None
              ([Inbound "/live/track/get/volume" [JInt 1]] ++
               Inbound "/live/song/get/tempo" [JFloat 120 0] :: []) init)
      = Return response /\
    status_of response = Some (JStr "success") /\
    data_of response = Some (JList [JFloat 120 0]).
Proof.
  apply (correlated_reply_yields_success (fun _ => "") init
           [("command", JStr "send_message"); ("address", JStr "/live/song/get/tempo");
            ("args", JList [])]
           "/live/song/get/tempo" [JFloat 120 0]
           [Inbound "/live/track/get/volume" [JInt 1]] []).
  - reflexivity.
  - reflexivity.
  - reflexivity.
  - intros a g H. simpl in H. rewrite lookup_empty in H. discriminate H.
  - reflexivity.
Defined.


Lemma dispatcher_command_kinds_witness :
  _process_command (fun _ => "") (JObj [("command", JStr "shutdown")]) None [] init
  = (Return (unknown_command_envelope (fun _ => "") (JStr "shutdown")), init) /\
  _process_command (fun _ => "") (JObj [("command", JStr "ping")]) None [] init
  = (Return pong_envelope, init).
Proof.
  split.
  - apply (dispatcher_command_kinds (fun _ => "") init [("command", JStr "shutdown")] None []);
      discriminate.
  - apply (dispatcher_command_kinds (fun _ => "") init [("command", JStr "ping")] None []).
    reflexivity.
Defined.

Lemma missing_address_rejected_connection_kept_witness :
  _handle_socket_client (fun _ => "")
    [ReadCommand (JObj [("command", JStr "send_message")]) None [];
     ReadCommand (JObj [("command", JStr "ping")]) None []] init
  = (([missing_address_envelope; pong_envelope], ConnOpen), init).
Proof.
  destruct (missing_address_rejected_connection_kept (fun _ => "") init
              [("command", JStr "send_message")] None []
              [ReadCommand (JObj [("command", JStr "ping")]) None []]
              eq_refl eq_refl) as (_ & _ & _ & H & _).
  rewrite H. reflexivity.
Defined.

Lemma empty_address_is_missing_address_witness :
  _process_command (fun _ => "")
    (JObj [("command", JStr "send_message"); ("address", JStr "")]) None [] init
  = (Return missing_address_envelope, init).
Proof.
  apply (empty_address_is_missing_address (fun _ => "") init
           [("command", JStr "send_message"); ("address", JStr "")]
           [("command", JStr "send_message")] None []); reflexivity.
Defined.

(** ** Invariants of the daemon

    A property of the daemon object that every step of the event loop, a
    [cancel] and a note in the ghost trace preserve is preserved by every
    method, and so by a whole connection. *)

Lemma awaiting_steps address args d :
  awaiting address args d =
  after (note InSendOscWithResponse Await
           (after (run_env_event (TaskSends address args)
                     (after (run_env_event (TaskRegisters address) d))))).
Proof.
  unfold run_env_event, bind, after. rewrite register_waiter_run.
  unfold send_message, note, awaiting, set_osc_out, set_trace, ret. simpl.
  rewrite <- app_assoc. reflexivity.
Qed.

Lemma send_fails_steps address args text env d :
  after (_send_osc_with_response address args (Some text) env d) =
  after (run_env_event (TaskSendFails address)
           (after (run_env_event (TaskRegisters address) d))).
Proof.
  rewrite send_osc_with_response_send_fails.
  unfold run_env_event, bind, after. rewrite register_waiter_run. simpl.
  rewrite remove_waiter_run. simpl.
  rewrite lookup_insert_eq, delete_insert_eq, <- app_assoc. reflexivity.
Qed.

Section Invariant.

Variable P : Daemon -> Prop.
Hypothesis P_event : forall ev d, P d -> P (after (run_env_event ev d)).
Hypothesis P_cancel : forall f d, P d -> P (after (cancel f d)).
Hypothesis P_note : forall w a d, P d -> P (after (note w a d)).

Lemma wait_for_invariant f env : forall d, P d -> P (after (wait_for f env d)).
Proof.
  induction env as [|ev env IH]; intros d Hd; simpl;
    destruct (futures d !! f) as [[| r |]|] eqn:F; try exact Hd.
  - unfold bind. specialize (P_cancel f d Hd).
    destruct (cancel f d) as [[[]|e] d'] eqn:C; exact P_cancel.
  - apply IH, P_event, Hd.
Qed.

Lemma send_osc_with_response_invariant address args send_exn env d :
  P d -> P (after (_send_osc_with_response address args send_exn env d)).
Proof.
  intros Hd. destruct send_exn as [text|].
  - rewrite send_fails_steps. apply P_event, P_event, Hd.
  - rewrite send_osc_with_response_sent.
    assert (Ha : P (awaiting address args d)).
    { rewrite awaiting_steps. apply P_note, P_event, P_event, Hd. }
    pose proof (wait_for_invariant (length (futures d)) env _ Ha) as Hw.
    destruct (wait_for (length (futures d)) env (awaiting address args d))
      as [[r | [| | text]] d']; unfold after in Hw |- *; simpl in Hw |- *;
      try exact Hw; apply (P_event (TaskSendFails address)), Hw.
Qed.

Lemma send_osc_fire_and_forget_invariant address args send_exn d :
  P d -> P (after (_send_osc_fire_and_forget address args send_exn d)).
Proof.
  intros Hd. rewrite send_osc_fire_and_forget_run.
  destruct send_exn as [text|]; [exact Hd|].
  apply (P_event (TaskSends address args)), Hd.
Qed.

Lemma process_command_cases py_repr message send_exn env d :
  (exists o, _process_command py_repr message send_exn env d = (o, d)) \/
  (exists a args,
     _process_command py_repr message send_exn env d
       = _send_osc_with_response a args send_exn env d) \/
  (exists a args,
     _process_command py_repr message send_exn env d
       = _send_osc_fire_and_forget a args send_exn d).
Proof.
  destruct message as [| b | n | m e | t | items | fields];
    try (left; eexists; reflexivity).
  unfold _process_command, message_get, bind, ret, raise.
  destruct (py_eq_str _ "send_message").
  - destruct (py_truthy _); simpl; [|left; eexists; reflexivity].
    destruct (match assoc_get "address" fields with Some v => v | None => JNull end)
      as [| b | n | m e | a | items | o]; try (left; eexists; reflexivity).
    destruct (_expects_response a); [right; left | right; right]; eauto.
  - destruct (py_eq_str _ "get_status"); [left; eexists; reflexivity|].
    destruct (py_eq_str _ "ping"); left; eexists; reflexivity.
Qed.

Lemma process_command_invariant py_repr message send_exn env d :
  P d -> P (after (_process_command py_repr message send_exn env d)).
Proof.
  intros Hd.
  destruct (process_command_cases py_repr message send_exn env d)
    as [(o & E) | [(a & args & E) | (a & args & E)]]; rewrite E.
  - exact Hd.
  - apply send_osc_with_response_invariant, Hd.
  - apply send_osc_fire_and_forget_invariant, Hd.
Qed.

Lemma handle_socket_client_invariant py_repr reads : forall d,
  P d -> P (daemon_of (_handle_socket_client py_repr reads d)).
Proof.
  induction reads as [|rd reads IH]; intros d Hd; [exact Hd|].
  destruct rd as [| e | text | message send_exn env]; simpl; try exact Hd.
  - specialize (IH d Hd).
    destruct (_handle_socket_client py_repr reads d) as [[w c] d']. exact IH.
  - pose proof (process_command_invariant py_repr message send_exn env d Hd) as Hp.
    destruct (_process_command py_repr message send_exn env d) as [[r | e] d1];
      unfold after in Hp; simpl in Hp; [|exact Hp].
    specialize (IH d1 Hp).
    destruct (_handle_socket_client py_repr reads d1) as [[w c] d2]. exact IH.
Qed.

End Invariant.

(** ** Futures and the registry along a run *)

Lemma registry_wf_event ev d :
  registry_wf d -> registry_wf (after (run_env_event ev d)).
Proof.
  intros Hwf. unfold registry_wf. intros a g.
  rewrite env_event_pending, env_event_futures.
  destruct ev as [a' args | a' | a' args | a' g' | a']; intros H.
  - apply lookup_delete_Some in H. destruct H as [_ H]. apply Hwf in H.
    destruct (pending_responses d !! a') as [f|]; [|exact H].
    destruct (futures d !! f) as [[| r |]|]; rewrite ?length_insert; exact H.
  - rewrite length_app. simpl. apply lookup_insert_Some in H.
    destruct H as [[_ <-] | [_ H]]; [lia | apply Hwf in H; lia].
  - apply Hwf in H. exact H.
  - apply lookup_delete_Some in H. destruct H as [_ H]. apply Hwf in H.
    destruct (futures d !! g') as [[| r |]|]; rewrite ?length_insert; exact H.
  - apply lookup_delete_Some in H. destruct H as [_ H]. apply Hwf in H. exact H.
Qed.

Lemma registry_wf_cancel f d : registry_wf d -> registry_wf (after (cancel f d)).
Proof.
  intros Hwf. unfold registry_wf. rewrite cancel_run. unfold after. simpl.
  intros a g H.
  destruct (futures d !! f) as [[| r |]|]; simpl in *;
    rewrite ?length_insert; apply Hwf in H; exact H.
Qed.

Lemma registry_wf_note w a d : registry_wf d -> registry_wf (after (note w a d)).
Proof. intros Hwf. unfold registry_wf, note, after. simpl. exact Hwf. Qed.

Lemma registry_wf_init : registry_wf init.
Proof. intros a g H. simpl in H. rewrite lookup_empty in H. discriminate H. Qed.

Lemma wait_for_cancelled f env d :
  futures d !! f = Some FCancelled -> wait_for f env d = (Raise CancelledError, d).
Proof. intros H. destruct env; simpl; rewrite H; reflexivity. Qed.

(** A datagram that finds another future, or none, under its address
    leaves the awaited future as it is. *)
Lemma awaited_inbound_other address f a args d :
  awaited address f d ->
  pending_responses d !! a <> Some f ->
  awaited address f (after (run_env_event (Inbound a args) d)).
Proof.
  intros [Hf Hkey] Hne. unfold awaited.
  rewrite env_event_futures, env_event_pending. split.
  - destruct (pending_responses d !! a) as [g|] eqn:E; [|exact Hf].
    assert (g <> f) by congruence.
    destruct (futures d !! g) as [[| r |]|]; try exact Hf.
    rewrite list_lookup_insert_ne by assumption. exact Hf.
  - intros a' Ha'. apply lookup_delete_Some in Ha'. apply Hkey, Ha'.
Qed.

(** When the wait returns, what it returns is the envelope that the handler
    built from a datagram for the very address of the request, and that
    datagram took the entry out of the registry. *)
Lemma wait_for_return address f env : forall d r d',
  awaited address f d ->
  wait_for f env d = (Return r, d') ->
  (exists data, r = success_envelope address data /\ In (Inbound address data) env) /\
  pending_responses d' !! address = None.
Proof.
  induction env as [|ev env IH]; intros d r d' Haw Hw.
  - rewrite wait_for_pending_nil in Hw by apply Haw. discriminate Hw.
  - rewrite wait_for_pending_cons in Hw by apply Haw.
    assert (Hnext : awaited address f (after (run_env_event ev d)) ->
              (exists data, r = success_envelope address data /\
                            In (Inbound address data) (ev :: env)) /\
              pending_responses d' !! address = None).
    { intros Haw'. destruct (IH _ _ _ Haw' Hw) as [(data & -> & Hin) Hgone].
      split; [|exact Hgone]. exists data. split; [reflexivity | right; exact Hin]. }
    destruct (completes address f ev) eqn:C;
      [|apply Hnext, awaited_step; assumption].
    destruct ev as [a data | a | a args | a g | a]; simpl in C; try discriminate C.
    + apply String.eqb_eq in C. subst a.
      destruct (decide (pending_responses d !! address = Some f)) as [Hreg | Hne];
        [|apply Hnext, awaited_inbound_other; assumption].
      destruct Haw as [Hf _].
      rewrite (wait_for_done f env _ (success_envelope address data)) in Hw.
      * injection Hw as Hr Hd. subst r d'. split.
        -- exists data. split; [reflexivity | left; reflexivity].
        -- change (_handle_ableton_message address data d)
             with (run_env_event (Inbound address data) d).
           rewrite env_event_pending. apply lookup_delete_eq.
      * rewrite env_event_futures, Hreg, Hf.
        apply list_lookup_insert_eq. eapply lookup_lt_Some. exact Hf.
    + apply Nat.eqb_eq in C. subst g.
      destruct Haw as [Hf _].
      rewrite wait_for_cancelled in Hw; [discriminate Hw|].
      rewrite env_event_futures, Hf.
      apply list_lookup_insert_eq. eapply lookup_lt_Some. exact Hf.
Qed.

Lemma orphaned_step f ev d :
  orphaned f d ->
  cancels f ev = false ->
  orphaned f (after (run_env_event ev d)).
Proof.
  intros [Hf Hkey] Hev. unfold orphaned.
  rewrite env_event_futures, env_event_pending.
  assert (Hlt : f < length (futures d)) by (eapply lookup_lt_Some; exact Hf).
  destruct ev as [a args | a | a args | a g | a]; simpl in Hev.
  - split.
    + destruct (pending_responses d !! a) as [g|] eqn:E; [|exact Hf].
      assert (g <> f) by (intros ->; exact (Hkey a E)).
      destruct (futures d !! g) as [[| r |]|]; try exact Hf.
      rewrite list_lookup_insert_ne by assumption. exact Hf.
    + intros a' Ha'. apply lookup_delete_Some in Ha'. exact (Hkey a' (proj2 Ha')).
  - split.
    + rewrite lookup_app_l by exact Hlt. exact Hf.
    + intros a' Ha'. apply lookup_insert_Some in Ha'.
      destruct Ha' as [[_ Heq] | [_ Hold]]; [lia | exact (Hkey a' Hold)].
  - split; assumption.
  - apply Nat.eqb_neq in Hev. split.
    + destruct (futures d !! g) as [[| r |]|]; try exact Hf.
      rewrite list_lookup_insert_ne by assumption. exact Hf.
    + intros a' Ha'. apply lookup_delete_Some in Ha'. exact (Hkey a' (proj2 Ha')).
  - split; [exact Hf|].
    intros a' Ha'. apply lookup_delete_Some in Ha'. exact (Hkey a' (proj2 Ha')).
Qed.

Lemma wait_for_orphaned f env : forall d,
  orphaned f d ->
  forallb (fun ev => negb (cancels f ev)) env = true ->
  result (wait_for f env d) = Raise TimeoutError.
Proof.
  induction env as [|ev env IH]; intros d Ho Henv.
  - rewrite wait_for_pending_nil by apply Ho. reflexivity.
  - simpl in Henv. apply andb_prop in Henv. destruct Henv as [Hev Henv].
    apply negb_true_iff in Hev.
    rewrite wait_for_pending_cons by apply Ho.
    apply IH; [apply orphaned_step; assumption | exact Henv].
Qed.

Lemma awaited_overwritten address f d :
  awaited address f d ->
  orphaned f (after (run_env_event (TaskRegisters address) d)).
Proof.
  intros [Hf Hkey]. unfold orphaned.
  rewrite env_event_futures, env_event_pending.
  assert (Hlt : f < length (futures d)) by (eapply lookup_lt_Some; exact Hf).
  split.
  - rewrite lookup_app_l by exact Hlt. exact Hf.
  - intros a Ha. apply lookup_insert_Some in Ha.
    destruct Ha as [[_ Heq] | [Hne Hold]]; [lia | apply Hne; symmetry; apply Hkey, Hold].
Qed.

Lemma wait_for_starved address f post pre : forall d,
  awaited address f d ->
  forallb (fun ev => negb (completes address f ev)) pre = true ->
  forallb (fun ev => negb (cancels f ev)) post = true ->
  result (wait_for f (pre ++ TaskRegisters address :: post) d) = Raise TimeoutError.
Proof.
  induction pre as [|ev pre IH]; intros d Haw Hpre Hpost; simpl app.
  - rewrite wait_for_pending_cons by apply Haw.
    apply wait_for_orphaned; [apply awaited_overwritten, Haw | exact Hpost].
  - simpl in Hpre. apply andb_prop in Hpre. destruct Hpre as [Hev Hpre].
    apply negb_true_iff in Hev.
    rewrite wait_for_pending_cons by apply Haw.
    apply IH; [apply awaited_step; assumption | exact Hpre | exact Hpost].
Qed.

Lemma string_prefix_iff p : forall a,
  String.prefix p a = true <-> exists s, a = p ++ s.
Proof.
  induction p as [|c p IH]; intros a.
  - split; [intros _; exists a; reflexivity | intros _; destruct a; reflexivity].
  - destruct a as [|c' a]; simpl.
    + split; [discriminate | intros [s Hs]; discriminate Hs].
    + destruct (ascii_dec c c') as [-> | Hne].
      * rewrite IH. split; intros [s Hs]; exists s.
        -- rewrite Hs. reflexivity.
        -- injection Hs as Hs. exact Hs.
      * split; [discriminate | intros [s Hs]; injection Hs as Hc _; congruence].
Qed.

Lemma string_app_assoc (p s t : string) : (p ++ s) ++ t = p ++ (s ++ t).
Proof.
  induction p as [|c p IH]; [reflexivity|].
  change (String c ((p ++ s) ++ t) = String c (p ++ (s ++ t))).
  f_equal. exact IH.
Qed.

Lemma env_event_osc_out_kept ev d :
  sends ev = false -> osc_out (after (run_env_event ev d)) = osc_out d.
Proof.
  destruct ev as [a args | a | a args | a g | a]; intros Hs;
    unfold after, run_env_event, bind.
  - rewrite handle_ableton_message_run.
    destruct (pending_responses d !! a); reflexivity.
  - rewrite register_waiter_run. reflexivity.
  - discriminate Hs.
  - rewrite cancel_run, remove_waiter_run.
    destruct (futures d !! g) as [[| r |]|]; reflexivity.
  - rewrite remove_waiter_run. reflexivity.
Qed.

Lemma wait_for_osc_out_kept f env : forall d,
  forallb (fun ev => negb (sends ev)) env = true ->
  osc_out (after (wait_for f env d)) = osc_out d.
Proof.
  induction env as [|ev env IH]; intros d Henv; simpl;
    destruct (futures d !! f) as [[| r |]|] eqn:F; try reflexivity.
  - unfold bind. rewrite cancel_run, F. reflexivity.
  - simpl in Henv. apply andb_prop in Henv. destruct Henv as [Hev Henv].
    apply negb_true_iff in Hev.
    rewrite IH by exact Henv. apply env_event_osc_out_kept, Hev.
Qed.

Lemma env_event_lock ev d :
  response_lock d = false -> response_lock (after (run_env_event ev d)) = false.
Proof.
  destruct ev as [a args | a | a args | a g | a]; intros Hl;
    unfold after, run_env_event, bind.
  - rewrite handle_ableton_message_run.
    destruct (pending_responses d !! a); exact Hl.
  - rewrite register_waiter_run. reflexivity.
  - exact Hl.
  - rewrite cancel_run, remove_waiter_run. reflexivity.
  - rewrite remove_waiter_run. reflexivity.
Qed.

Lemma env_event_result_kept ev d g r :
  futures d !! g = Some (FResult r) ->
  futures (after (run_env_event ev d)) !! g = Some (FResult r).
Proof.
  intros Hg. rewrite env_event_futures.
  assert (Hlt : g < length (futures d)) by (eapply lookup_lt_Some; exact Hg).
  destruct ev as [a args | a | a args | a g' | a]; try exact Hg.
  - destruct (pending_responses d !! a) as [f|]; [|exact Hg].
    destruct (futures d !! f) as [[| r' |]|] eqn:F; try exact Hg.
    rewrite list_lookup_insert_ne by congruence. exact Hg.
  - rewrite lookup_app_l by exact Hlt. exact Hg.
  - destruct (futures d !! g') as [[| r' |]|] eqn:F; try exact Hg.
    rewrite list_lookup_insert_ne by congruence. exact Hg.
Qed.

Lemma cancel_result_kept f d g r :
  futures d !! g = Some (FResult r) ->
  futures (after (cancel f d)) !! g = Some (FResult r).
Proof.
  intros Hg. rewrite cancel_run. unfold after. simpl.
  destruct (futures d !! f) as [[| r' |]|] eqn:F; try exact Hg.
  simpl. rewrite list_lookup_insert_ne by congruence. exact Hg.
Qed.

Lemma cancel_lock f d :
  response_lock d = false -> response_lock (after (cancel f d)) = false.
Proof.
  intros Hl. rewrite cancel_run. unfold after. simpl.
  destruct (futures d !! f) as [[| r' |]|]; exact Hl.
Qed.

(** ** Further properties of the daemon *)

(** X1.  A [success] envelope that [_send_osc_with_response] returns was
    built from a datagram that arrived during the wait for the very
    address of the request: no reply of another address, and no stale
    result, is ever handed to it. *)
Theorem reply_is_never_misrouted d address args send_exn env r :
  registry_wf d ->
  result (_send_osc_with_response address args send_exn env d) = Return r ->
  status_of r = Some (JStr "success") ->
  exists data, r = success_envelope address data /\ In (Inbound address data) env.
Proof.
  intros Hwf Hr Hs. destruct send_exn as [text|].
  - rewrite send_osc_with_response_send_fails in Hr.
    injection Hr as <-. discriminate Hs.
  - rewrite send_osc_with_response_sent in Hr.
    destruct (wait_for (length (futures d)) env (awaiting address args d))
      as [[r' | [| | text]] d'] eqn:W; unfold result in Hr; simpl in Hr;
      try discriminate Hr; try (injection Hr as <-; discriminate Hs).
    injection Hr as <-.
    apply (wait_for_return address _ env _ _ _
             (proj2 (awaiting_registered address args d Hwf)) W).
Qed.

(** X2.  Whenever [_send_osc_with_response] returns an [error] envelope,
    for a timeout or for a failed send, the registry holds no entry for
    the address of the request at that return, whatever the loop ran
    during the wait: both [except] clauses delete the entry and return
    without a suspension point in between. *)
Theorem error_return_leaves_no_waiter d address args send_exn env r :
  result (_send_osc_with_response address args send_exn env d) = Return r ->
  status_of r = Some (JStr "error") ->
  pending_responses (after (_send_osc_with_response address args send_exn env d))
    !! address = None.
Proof.
  intros Hr Hs. destruct send_exn as [text|].
  - rewrite send_osc_with_response_send_fails. unfold after. simpl.
    apply lookup_delete_eq.
  - rewrite send_osc_with_response_sent in Hr |- *.
    pose proof (wait_for_outcome (length (futures d)) env (awaiting address args d)) as Ho.
    destruct (wait_for (length (futures d)) env (awaiting address args d))
      as [[r' | [| | text]] d'] eqn:W; unfold result in Hr, Ho; simpl in Hr, Ho;
      try discriminate Hr; unfold after; simpl snd;
      try (rewrite remove_waiter_run; simpl; apply lookup_delete_eq).
    exfalso. injection Hr as <-.
    destruct Ho as [(a & data & Ha) | [Ha | Ha]]; try discriminate Ha.
    + left. unfold awaiting. simpl. apply list_lookup_middle. reflexivity.
    + injection Ha as ->. discriminate Hs.
Qed.

(** X3.  The waiter of a request is lost when another request registers
    for the same address during its wait: from then on no datagram can
    resolve the first request, which ends in the timeout error even if a
    datagram for its address arrives before the deadline. *)
Theorem overwritten_waiter_starves d address args pre post :
  registry_wf d ->
  forallb (fun ev => negb (completes address (length (futures d)) ev)) pre = true ->
  forallb (fun ev => negb (cancels (length (futures d)) ev)) post = true ->
  result (_send_osc_with_response address args None
            (pre ++ TaskRegisters address :: post) d)
    = Return (error_envelope (timeout_message address) address).
Proof.
  intros Hwf Hpre Hpost. rewrite send_osc_with_response_sent.
  pose proof (wait_for_starved address (length (futures d)) post pre
                (awaiting address args d)
                (proj2 (awaiting_registered address args d Hwf)) Hpre Hpost) as Hw.
  destruct (wait_for _ _ (awaiting address args d)) as [o d'].
  unfold result in Hw. simpl in Hw. subst o. reflexivity.
Qed.

(** X4.  A result stored in a future stays: no later datagram, no other
    request and no command of a connection overwrites or cancels it. *)
Theorem delivered_result_is_kept py_repr reads d g r :
  futures d !! g = Some (FResult r) ->
  (forall ev, futures (after (run_env_event ev d)) !! g = Some (FResult r)) /\
  futures (daemon_of (_handle_socket_client py_repr reads d)) !! g = Some (FResult r).
Proof.
  intros Hg. split.
  - intros ev. apply env_event_result_kept, Hg.
  - apply (handle_socket_client_invariant
             (fun d => futures d !! g = Some (FResult r))); try exact Hg.
    + intros ev d0. apply env_event_result_kept.
    + intros f d0. apply cancel_result_kept.
    + intros w a d0 H. exact H.
Qed.

(** X5.  The lock is never left held: free before a request or before a
    whole connection, it is free after, on the timeout and send-error
    paths as well. *)
Theorem lock_is_released py_repr reads address args send_exn env d :
  response_lock d = false ->
  response_lock (after (_send_osc_with_response address args send_exn env d)) = false /\
  response_lock (daemon_of (_handle_socket_client py_repr reads d)) = false.
Proof.
  intros Hl. split.
  - apply (send_osc_with_response_invariant (fun d => response_lock d = false));
      try exact Hl.
    + intros ev d0. apply env_event_lock.
    + intros f d0. apply cancel_lock.
    + intros w a d0 H. exact H.
  - apply (handle_socket_client_invariant (fun d => response_lock d = false));
      try exact Hl.
    + intros ev d0. apply env_event_lock.
    + intros f d0. apply cancel_lock.
    + intros w a d0 H. exact H.
Qed.

(** X6.  [_expects_response] holds exactly of the addresses that extend
    one of the eleven prefixes; so every extension of a response-bearing
    address is response-bearing, and so is none that does not start with
    [/live/]. *)
Theorem expects_response_iff_prefixed address :
  (_expects_response address = true <->
   exists p s, In p RESPONSE_PREFIXES /\ address = p ++ s) /\
  (_expects_response address = true ->
   forall s, _expects_response (address ++ s) = true) /\
  (_expects_response address = true -> String.prefix "/live/" address = true).
Proof.
  assert (Hiff : forall a, _expects_response a = true <->
                   exists p s, In p RESPONSE_PREFIXES /\ a = p ++ s).
  { intros a. unfold _expects_response. rewrite existsb_exists. split.
    - intros (p & Hin & Hp). apply string_prefix_iff in Hp. destruct Hp as [s Hs].
      exists p, s. split; assumption.
    - intros (p & s & Hin & Hs). exists p. split; [exact Hin|].
      apply string_prefix_iff. exists s. exact Hs. }
  split; [apply Hiff|]. split.
  - intros H s. apply Hiff in H. destruct H as (p & s' & Hin & ->).
    apply Hiff. exists p, (s' ++ s). split; [exact Hin | apply string_app_assoc].
  - intros H. apply Hiff in H. destruct H as (p & s & Hin & ->).
    simpl in Hin.
    repeat (destruct Hin as [<- | Hin]; [reflexivity|]). destruct Hin.
Qed.

(** X7.  A connection gets at most one response per read; as long as the
    handler stays in its loop it has written exactly one response for each
    read, and it leaves the loop only on a read that it does not answer. *)
Theorem one_response_per_read py_repr reads : forall d,
  let run := _handle_socket_client py_repr reads d in
  length (written run) <= length reads /\
  (conn_of run = ConnOpen -> length (written run) = length reads) /\
  (conn_of run = ConnClosed -> length (written run) < length reads).
Proof.
  induction reads as [|rd reads IH]; intros d; simpl.
  - unfold written, conn_of. simpl. repeat split; try lia. discriminate.
  - destruct rd as [| e | text | message send_exn env];
      try (unfold written, conn_of; simpl; repeat split; try lia; discriminate).
    + specialize (IH d). simpl in IH.
      destruct (_handle_socket_client py_repr reads d) as [[w c] d'].
      unfold written, conn_of in *. simpl in *.
      destruct IH as (H1 & H2 & H3). repeat split; intros; try lia.
      * rewrite H2 by assumption. reflexivity.
      * apply H3 in H. lia.
    + destruct (_process_command py_repr message send_exn env d) as [[r | e] d1];
        [|unfold written, conn_of; simpl; repeat split; try lia; discriminate].
      specialize (IH d1). simpl in IH.
      destruct (_handle_socket_client py_repr reads d1) as [[w c] d2].
      unfold written, conn_of in *. simpl in *.
      destruct IH as (H1 & H2 & H3). repeat split; intros; try lia.
      * rewrite H2 by assumption. reflexivity.
      * apply H3 in H. lia.
Qed.

(** X8.  Runs of a connection compose: serving [reads1 ++ reads2] is
    serving [reads1] and, if the handler is still in its loop, serving
    [reads2] from the daemon so reached, the responses being written in
    that order; once the handler has left the loop the later reads are
    never served. *)
Theorem connection_runs_compose py_repr reads1 reads2 : forall d,
  _handle_socket_client py_repr (reads1 ++ reads2)%list d =
  let run1 := _handle_socket_client py_repr reads1 d in
  match conn_of run1 with
  | ConnOpen =>
      let run2 := _handle_socket_client py_repr reads2 (daemon_of run1) in
      (((written run1 ++ written run2)%list, conn_of run2), daemon_of run2)
  | ConnClosed => run1
  end.
Proof.
  induction reads1 as [|rd reads1 IH]; intros d; simpl.
  - unfold written, conn_of, daemon_of. simpl.
    destruct (_handle_socket_client py_repr reads2 d) as [[w c] d']. reflexivity.
  - destruct rd as [| e | text | message send_exn env]; try reflexivity.
    + rewrite IH. simpl.
      destruct (_handle_socket_client py_repr reads1 d) as [[w1 [|]] d1];
        unfold written, conn_of, daemon_of; simpl; [|reflexivity].
      destruct (_handle_socket_client py_repr reads2 d1) as [[w2 c2] d2]. reflexivity.
    + destruct (_process_command py_repr message send_exn env d) as [[r | e] d0];
        [|reflexivity].
      rewrite IH. simpl.
      destruct (_handle_socket_client py_repr reads1 d0) as [[w1 [|]] d1];
        unfold written, conn_of, daemon_of; simpl; [|reflexivity].
      destruct (_handle_socket_client py_repr reads2 d1) as [[w2 c2] d2]. reflexivity.
Qed.

(** X9.  Frames that are not JSON are each answered with an [error]
    envelope [Invalid JSON: ...]; they change nothing in the daemon and
    the handler goes on to the reads that follow. *)
Theorem malformed_frames_are_answered py_repr texts rest d :
  _handle_socket_client py_repr (map ReadBadJson texts ++ rest)%list d =
  let run := _handle_socket_client py_repr rest d in
  (((map invalid_json_envelope texts ++ written run)%list, conn_of run), daemon_of run).
Proof.
  induction texts as [|text texts IH]; simpl.
  - unfold written, conn_of, daemon_of.
    destruct (_handle_socket_client py_repr rest d) as [[w c] d']. reflexivity.
  - rewrite IH. simpl. reflexivity.
Qed.

(** X10.  A frame that decodes to JSON other than an object makes
    [_process_command] raise ([message.get] does not exist); the handler
    then leaves its loop without writing a response, the daemon is
    unchanged, and the reads that follow are never served. *)
Theorem non_object_command_closes_connection py_repr message send_exn env rest d :
  (forall fields, message <> JObj fields) ->
  _process_command py_repr message send_exn env d
    = (Raise (attribute_error message "get"), d) /\
  _handle_socket_client py_repr (ReadCommand message send_exn env :: rest) d
    = (([], ConnClosed), d).
Proof.
  intros Hno.
  assert (H : _process_command py_repr message send_exn env d
              = (Raise (attribute_error message "get"), d)).
  { destruct message; try reflexivity. exfalso. eapply Hno. reflexivity. }
  split; [exact H|]. simpl. rewrite H. reflexivity.
Qed.

(** X11.  A [send_message] command whose address is true but not a string
    (a number, a list, an object) makes [_process_command] raise at
    [startswith]: nothing is sent and no waiter registered, no response is
    written, and the handler leaves its loop. *)
Theorem non_string_address_closes_connection py_repr fields v send_exn env rest d :
  assoc_get "command" fields = Some (JStr "send_message") ->
  assoc_get "address" fields = Some v ->
  py_truthy v = true ->
  (forall a, v <> JStr a) ->
  _process_command py_repr (JObj fields) send_exn env d
    = (Raise (attribute_error v "startswith"), d) /\
  _handle_socket_client py_repr (ReadCommand (JObj fields) send_exn env :: rest) d
    = (([], ConnClosed), d).
Proof.
  intros Hc Ha Ht Hno.
  assert (H : _process_command py_repr (JObj fields) send_exn env d
              = (Raise (attribute_error v "startswith"), d)).
  { unfold _process_command, message_get, bind, ret. rewrite Hc, Ha. simpl.
    rewrite Ht. simpl.
    destruct v; try reflexivity. exfalso. eapply Hno. reflexivity. }
  split; [exact H|]. simpl. rewrite H. reflexivity.
Qed.

(** X12.  [get_status] and [ping] commands, in any number and order, are
    each answered (with the status snapshot of the unchanged daemon, or with
    [pong]), leave the daemon exactly as it was and keep the connection. *)
Theorem queries_leave_daemon_unchanged py_repr reads : forall d,
  Forall is_query reads ->
  let run := _handle_socket_client py_repr reads d in
  daemon_of run = d /\
  conn_of run = ConnOpen /\
  length (written run) = length reads /\
  Forall (fun w => w = status_envelope d \/ w = pong_envelope) (written run).
Proof.
  induction reads as [|rd reads IH]; intros d Hq; simpl.
  - unfold daemon_of, conn_of, written. simpl. repeat split. constructor.
  - apply Forall_cons in Hq. destruct Hq as [Hrd Hq].
    destruct rd as [| e | text | message send_exn env]; simpl in Hrd; try contradiction.
    destruct message as [| b | n | m e | t | items | fields]; try contradiction.
    assert (Hp : _process_command py_repr (JObj fields) send_exn env d = (Return (status_envelope d), d)
                 \/ _process_command py_repr (JObj fields) send_exn env d = (Return pong_envelope, d)).
    { unfold _process_command, message_get, bind, ret. fold (command_of fields).
      destruct Hrd as [-> | ->]; [left | right]; reflexivity. }
    specialize (IH d Hq). simpl in IH.
    destruct Hp as [Hp | Hp]; rewrite Hp;
      destruct (_handle_socket_client py_repr reads d) as [[w c] d'];
      unfold daemon_of, conn_of, written in *; simpl in *;
      destruct IH as (H1 & H2 & H3 & H4);
      repeat split; try assumption;
      try (rewrite H3; reflexivity); constructor; auto.
Qed.

(** X13.  A [send_message] command hands exactly one datagram, with its
    address and arguments, to the transmitter when the send does not raise,
    and none when it raises; a timeout does not make the daemon send
    again. *)
Theorem one_datagram_per_command py_repr d fields address send_exn env :
  assoc_get "command" fields = Some (JStr "send_message") ->
  assoc_get "address" fields = Some (JStr address) ->
  address <> "" ->
  forallb (fun ev => negb (sends ev)) env = true ->
  osc_out (after (_process_command py_repr (JObj fields) send_exn env d)) =
  (osc_out d ++ match send_exn with
                | None => [(address, args_of fields)]
                | Some _ => []
                end)%list.
Proof.
  intros Hc Ha Hne Henv.
  rewrite (process_command_send_message py_repr fields address) by assumption.
  destruct (_expects_response address).
  - destruct send_exn as [text|].
    + rewrite send_osc_with_response_send_fails. unfold after. simpl.
      rewrite app_nil_r. reflexivity.
    + rewrite send_osc_with_response_sent.
      pose proof (wait_for_osc_out_kept (length (futures d)) env
                    (awaiting address (args_of fields) d) Henv) as Hw.
      destruct (wait_for _ env _) as [[r | [| | text]] d'];
        unfold after in *; simpl in Hw; simpl snd;
        rewrite ?remove_waiter_run; simpl; exact Hw.
  - rewrite send_osc_fire_and_forget_run.
    destruct send_exn as [text|]; unfold after; simpl;
      rewrite ?app_nil_r; reflexivity.
Qed.

Lemma reply_is_never_misrouted_witness :
  exists data,
    success_envelope "/live/song/get/tempo" [JFloat 120 0]
      = success_envelope "/live/song/get/tempo" data /\
    In (Inbound "/live/song/get/tempo" data)
       [Inbound "/live/track/get/volume" [JInt 0; JFloat 1 (-1)];
        Inbound "/live/song/get/tempo" [JFloat 120 0]].
Proof.
  apply (reply_is_never_misrouted init "/live/song/get/tempo" (JList []) None
           [Inbound "/live/track/get/volume" [JInt 0; JFloat 1 (-1)];
            Inbound "/live/song/get/tempo" [JFloat 120 0]]
           (success_envelope "/live/song/get/tempo" [JFloat 120 0])).
  - intros a g H. simpl in H. rewrite lookup_empty in H. discriminate H.
  - reflexivity.
  - reflexivity.
Defined.

Lemma error_return_leaves_no_waiter_witness :
  pending_responses
    (after (_send_osc_with_response "/live/song/get/tempo" (JList []) None
              [TaskRegisters "/live/song/get/tempo";
               Inbound "/live/song/get/tempo" [JFloat 120 0];
               TaskRegisters "/live/song/get/tempo"] init))
    !! "/live/song/get/tempo" = None.
Proof.
  apply (error_return_leaves_no_waiter init "/live/song/get/tempo" (JList []) None
           [TaskRegisters "/live/song/get/tempo";
            Inbound "/live/song/get/tempo" [JFloat 120 0];
            TaskRegisters "/live/song/get/tempo"]
           (error_envelope (timeout_message "/live/song/get/tempo") "/live/song/get/tempo")).
  - reflexivity.
  - reflexivity.
Defined.

Lemma overwritten_waiter_starves_witness :
  result (_send_osc_with_response "/live/song/get/tempo" (JList []) None
            ([] ++ TaskRegisters "/live/song/get/tempo"
                :: [Inbound "/live/song/get/tempo" [JFloat 120 0]]) init)
    = Return (error_envelope (timeout_message "/live/song/get/tempo")
                "/live/song/get/tempo").
Proof.
  apply (overwritten_waiter_starves init "/live/song/get/tempo" (JList []) []
           [Inbound "/live/song/get/tempo" [JFloat 120 0]]).
  - intros a g H. simpl in H. rewrite lookup_empty in H. discriminate H.
  - reflexivity.
  - reflexivity.
Defined.

Lemma delivered_result_is_kept_witness :
  let d := after (_send_osc_with_response "/live/song/get/tempo" (JList []) None
                    [Inbound "/live/song/get/tempo" [JFloat 120 0]] init) in
  futures
    (daemon_of
       (_handle_socket_client (fun _ => "")
          [ReadCommand (send_message_command "/live/song/get/tempo" []) None
             [Inbound "/live/song/get/tempo" [JInt 99]]] d))
    !! 0 = Some (FResult (success_envelope "/live/song/get/tempo" [JFloat 120 0])).
Proof.
  intros d.
  apply (delivered_result_is_kept (fun _ => "")
           [ReadCommand (send_message_command "/live/song/get/tempo" []) None
              [Inbound "/live/song/get/tempo" [JInt 99]]] d 0
           (success_envelope "/live/song/get/tempo" [JFloat 120 0])).
  reflexivity.
Defined.

Lemma lock_is_released_witness :
  response_lock
    (after (_send_osc_with_response "/live/song/get/tempo" (JList []) (Some "unreachable")
              [] init)) = false.
Proof.
  apply (lock_is_released (fun _ => "") [] "/live/song/get/tempo" (JList [])
           (Some "unreachable") [] init).
  reflexivity.
Defined.

Lemma non_object_command_closes_connection_witness :
  _handle_socket_client (fun _ => "")
    [ReadCommand (JList [JStr "ping"]) None [];
     ReadCommand (JObj [("command", JStr "ping")]) None []] init
  = (([], ConnClosed), init).
Proof.
  apply (non_object_command_closes_connection (fun _ => "") (JList [JStr "ping"]) None []
           [ReadCommand (JObj [("command", JStr "ping")]) None []] init).
  intros fields. discriminate.
Defined.

Lemma non_string_address_closes_connection_witness :
  _handle_socket_client (fun _ => "")
    [ReadCommand (JObj [("command", JStr "send_message"); ("address", JInt 5)]) None []]
    init
  = (([], ConnClosed), init).
Proof.
  apply (non_string_address_closes_connection (fun _ => "")
           [("command", JStr "send_message"); ("address", JInt 5)] (JInt 5) None [] [] init).
  - reflexivity.
  - reflexivity.
  - reflexivity.
  - intros a. discriminate.
Defined.

Lemma queries_leave_daemon_unchanged_witness :
  daemon_of
    (_handle_socket_client (fun _ => "")
       [ReadCommand (JObj [("command", JStr "ping")]) None [];
        ReadCommand (JObj [("command", JStr "get_status")]) None []] init)
  = init.
Proof.
  apply (queries_leave_daemon_unchanged (fun _ => "")
           [ReadCommand (JObj [("command", JStr "ping")]) None [];
            ReadCommand (JObj [("command", JStr "get_status")]) None []] init).
  constructor; [right; reflexivity|].
  constructor; [left; reflexivity|].
  constructor.
Defined.

Lemma one_datagram_per_command_witness :
  osc_out
    (after (_process_command (fun _ => "")
              (send_message_command "/live/song/get/tempo" []) None [] init))
  = [("/live/song/get/tempo", JList [])].
Proof.
  apply (one_datagram_per_command (fun _ => "") init
           [("command", JStr "send_message"); ("address", JStr "/live/song/get/tempo");
            ("args", JList [])] "/live/song/get/tempo" None []).
  - reflexivity.
  - reflexivity.
  - discriminate.
  - reflexivity.
Defined.

(** ** The caller and the daemon together *)

Lemma assoc_get_set_item_eq key v fields :
  assoc_get key (dict_set_item key v fields) = Some v.
Proof.
  induction fields as [|[k v'] rest IH]; simpl.
  - rewrite String.eqb_refl. reflexivity.
  - destruct (String.eqb k key) eqn:E; simpl; rewrite E; [reflexivity | exact IH].
Qed.

Lemma assoc_get_set_item_ne key key' v fields :
  key <> key' ->
  assoc_get key' (dict_set_item key v fields) = assoc_get key' fields.
Proof.
  intros Hne. induction fields as [|[k v'] rest IH]; simpl.
  - destruct (String.eqb key key') eqn:E; [apply String.eqb_eq in E; congruence|].
    reflexivity.
  - destruct (String.eqb k key) eqn:E; simpl.
    + apply String.eqb_eq in E. subst k.
      destruct (String.eqb key key') eqn:E'; [apply String.eqb_eq in E'; congruence|].
      reflexivity.
    + rewrite IH. reflexivity.
Qed.

Lemma dict_update_cons k v kwargs fields :
  dict_update fields ((k, v) :: kwargs) = dict_update (dict_set_item k v fields) kwargs.
Proof. reflexivity. Qed.

Lemma assoc_get_update_other key kwargs : forall fields,
  ~ In key (map fst kwargs) ->
  assoc_get key (dict_update fields kwargs) = assoc_get key fields.
Proof.
  induction kwargs as [|[k v] kwargs IH]; intros fields Hnot; [reflexivity|].
  rewrite dict_update_cons, IH by (simpl in Hnot; tauto).
  apply assoc_get_set_item_ne. intros ->. apply Hnot. left. reflexivity.
Qed.

(** X14.  What the caller puts into a request the daemon reads back:
    after [request.update(kwargs)] the [command] field is the command, as
    no keyword is called [command], and every keyword argument is found
    under its name with its value. *)
Theorem request_fields_round_trip command kwargs :
  NoDup (map fst kwargs) ->
  ~ In "command" (map fst kwargs) ->
  assoc_get "command" (dict_update [("command", JStr command)] kwargs)
    = Some (JStr command) /\
  forall k v, In (k, v) kwargs ->
    assoc_get k (dict_update [("command", JStr command)] kwargs) = Some v.
Proof.
  intros Hnd Hc. split.
  - rewrite assoc_get_update_other by exact Hc. reflexivity.
  - generalize [("command", JStr command)] as fields.
    clear Hc. induction kwargs as [|[k' v'] kwargs IH]; intros fields k v Hin;
      [destruct Hin|].
    simpl in Hnd. apply NoDup_cons in Hnd. destruct Hnd as [Hk' Hnd].
    rewrite dict_update_cons.
    destruct Hin as [Heq | Hin].
    + injection Heq as -> ->.
      rewrite (assoc_get_update_other k kwargs).
      * apply assoc_get_set_item_eq.
      * intros H. apply Hk'. apply list_elem_of_In. exact H.
    + apply IH; assumption.
Qed.

Lemma request_fields_round_trip_witness :
  assoc_get "address"
    (dict_update [("command", JStr "send_message")]
       [("address", JStr "/live/test"); ("args", JList [])])
  = Some (JStr "/live/test").
Proof.
  apply (request_fields_round_trip "send_message"
           [("address", JStr "/live/test"); ("args", JList [])]).
  - simpl. apply NoDup_cons. split.
    + intros H. apply list_elem_of_In in H. destruct H as [H | []]. discriminate H.
    + apply NoDup_singleton.
  - simpl. intros [H | [H | []]]; discriminate H.
  - left. reflexivity.
Defined.

Lemma send_osc_with_response_times_out d address args env :
  registry_wf d ->
  forallb (fun ev => negb (completes address (length (futures d)) ev)) env = true ->
  result (_send_osc_with_response address args None env d)
    = Return (error_envelope (timeout_message address) address).
Proof.
  intros Hwf Henv. rewrite send_osc_with_response_sent.
  pose proof (wait_for_times_out address (length (futures d)) env
                (awaiting address args d)
                (proj2 (awaiting_registered address args d Hwf)) Henv) as Hw.
  destruct (wait_for _ env _) as [o d']. unfold result in Hw. simpl in Hw.
  subst o. reflexivity.
Qed.


Lemma process_command_send_message_outcome py_repr fields send_exn env d r :
  assoc_get "command" fields = Some (JStr "send_message") ->
  result (_process_command py_repr (JObj fields) send_exn env d) = Return r ->
  r = missing_address_envelope \/
  (exists a data, r = success_envelope a data) \/
  (exists a message, r = error_envelope message a) \/
  (exists a, r = sent_envelope a).
Proof.
  intros Hc. unfold _process_command, message_get, bind, ret. rewrite Hc. simpl.
  destruct (py_truthy _); simpl.
  - destruct (match assoc_get "address" fields with Some v => v | None => JNull end)
      as [| b | n | m e | a | items | o]; try (unfold result, raise; simpl; discriminate).
    destruct (_expects_response a).
    + intros Hr.
      destruct (send_osc_with_response_outcome a
                  (match assoc_get "args" fields with Some v => v | None => JList [] end)
                  send_exn env d) as [(a' & data & H) | [(m & H) | H]];
        rewrite H in Hr; try discriminate Hr; injection Hr as <-; eauto 6.
    + rewrite send_osc_fire_and_forget_run.
      destruct send_exn; unfold result; simpl; intros [= <-]; eauto 6.
  - unfold result. simpl. intros [= <-]. left. reflexivity.
Qed.

Lemma format_response_success py_repr a data :
  format_response py_repr (success_envelope a data) "data"
    = Return (String.concat ", " (map (py_str py_repr) data)).
Proof. destruct data as [|x [|y l]]; reflexivity. Qed.

(** X15.  The three requests that [AbletonClient] builds are commands the
    daemon knows: the request of [get_daemon_status] is answered with the
    status snapshot, that of [ping] with [pong], and that of [send_osc]
    for a non-empty address is relayed, awaited or not as
    [_expects_response] decides, with the address and arguments given. *)
Theorem client_requests_are_understood py_repr address args send_exn env d :
  address <> "" ->
  _process_command py_repr
    (AbletonClient.build_request "send_message"
       [("address", JStr address); ("args", JList args)]) send_exn env d
  = (if _expects_response address
     then _send_osc_with_response address (JList args) send_exn env d
     else _send_osc_fire_and_forget address (JList args) send_exn d) /\
  _process_command py_repr (AbletonClient.build_request "get_status" []) send_exn env d
  = (Return (status_envelope d), d) /\
  _process_command py_repr (AbletonClient.build_request "ping" []) send_exn env d
  = (Return pong_envelope, d).
Proof.
  intros Hne. split; [|split; reflexivity].
  apply (process_command_send_message py_repr
           [("command", JStr "send_message"); ("address", JStr address);
            ("args", JList args)] address); try reflexivity. exact Hne.
Qed.

Lemma client_requests_are_understood_witness :
  _process_command (fun _ => "")
    (AbletonClient.build_request "send_message"
       [("address", JStr "/live/song/stop_playing"); ("args", JList [])]) None [] init
  = _send_osc_fire_and_forget "/live/song/stop_playing" (JList []) None init.
Proof.
  apply (client_requests_are_understood (fun _ => "") "/live/song/stop_playing" [] None []
           init).
  discriminate.
Defined.

(** X16.  One call of [send_command] puts at most one request on the
    wire: the request built from its arguments, on the socket in use, when
    the client is or gets connected and [sendall] takes it; nothing when
    the daemon cannot be reached or [sendall] raises.  No fault makes the
    client send again. *)
Theorem send_command_puts_one_request command kwargs reachable io c :
  let c' := snd (AbletonClient.send_command command kwargs reachable io c) in
  match (if AbletonClient.connected c && AbletonClient.has_sock c
         then AbletonClient.sock c
         else if reachable then Some (AbletonClient.attempts c) else None) with
  | Some s =>
      AbletonClient.wire c' =
        (AbletonClient.wire c ++
         (if takes_request io
          then [(s, AbletonClient.build_request command kwargs)]
          else []))%list
  | None => AbletonClient.wire c' = AbletonClient.wire c
  end.
Proof.
  destruct c as [conn [s|] n w]; destruct conn; destruct reachable;
    unfold AbletonClient.send_command, AbletonClient._ensure_connected,
      AbletonClient.connect, AbletonClient.has_sock; simpl;
    try reflexivity;
    destruct io as [[|t] | [|t] | | t | t | r]; simpl;
    rewrite ?app_nil_r; reflexivity.
Qed.

(** X17.  A connected client reconnects on its next command exactly when
    the last exchange ended the stream or failed with a socket error other
    than a timeout; after a reply, a timeout or an undecodable reply it
    keeps the socket and makes no new attempt. *)
Theorem reconnects_only_after_a_drop
    command1 kwargs1 reachable1 io1 command2 kwargs2 reachable2 io2 c s :
  AbletonClient.connected c = true ->
  AbletonClient.sock c = Some s ->
  let c1 := snd (AbletonClient.send_command command1 kwargs1 reachable1 io1 c) in
  let c2 := snd (AbletonClient.send_command command2 kwargs2 reachable2 io2 c1) in
  AbletonClient.attempts c1 = AbletonClient.attempts c /\
  AbletonClient.connected c1 = negb (drops io1) /\
  AbletonClient.sock c1 = Some s /\
  AbletonClient.attempts c2 =
    AbletonClient.attempts c + (if drops io1 then 1 else 0).
Proof.
  intros Hc Hs. destruct c as [conn so n w]. simpl in Hc, Hs. subst conn so.
  destruct io1 as [[|t1] | [|t1] | | t1 | t1 | r1];
    destruct reachable2;
    destruct io2 as [[|t2] | [|t2] | | t2 | t2 | r2];
    simpl; repeat split; lia.
Qed.

Lemma reconnects_only_after_a_drop_witness :
  AbletonClient.attempts
    (snd (AbletonClient.send_command "ping" [] true (AbletonClient.IoReply pong_envelope)
            (snd (AbletonClient.send_command "ping" [] true AbletonClient.IoClosed
                    (AbletonClient.mkClient true (Some 0) 1 [])))))
  = 1 + 1.
Proof.
  apply (reconnects_only_after_a_drop "ping" [] true AbletonClient.IoClosed
           "ping" [] true (AbletonClient.IoReply pong_envelope)
           (AbletonClient.mkClient true (Some 0) 1 []) 0); reflexivity.
Defined.

(** X18.  Whatever envelope the daemon returns for a [send_message]
    command, [format_response] turns it into text without raising and
    never falls back to printing the dict: the data joined with commas for
    a reply, [Command sent successfully] for a one-way message, and
    [Error: ] followed by the daemon's message otherwise. *)
Theorem format_response_of_relay_replies py_repr fields send_exn env d r :
  assoc_get "command" fields = Some (JStr "send_message") ->
  result (_process_command py_repr (JObj fields) send_exn env d) = Return r ->
  (exists a data,
     r = success_envelope a data /\
     format_response py_repr r "data"
       = Return (String.concat ", " (map (py_str py_repr) data))) \/
  (exists a,
     r = sent_envelope a /\
     format_response py_repr r "data" = Return "Command sent successfully") \/
  (exists message,
     message_of r = Some (JStr message) /\
     format_response py_repr r "data" = Return ("Error: " ++ message)).
Proof.
  intros Hc Hr.
  destruct (process_command_send_message_outcome py_repr fields send_exn env d r Hc Hr)
    as [-> | [(a & data & ->) | [(a & m & ->) | (a & ->)]]].
  - right. right. exists "Missing OSC address". split; reflexivity.
  - left. exists a, data. split; [reflexivity | apply format_response_success].
  - right. right. exists m. split; reflexivity.
  - right. left. exists a. split; reflexivity.
Qed.

Lemma format_response_of_relay_replies_witness :
  format_response (fun _ => "120.0")
    (success_envelope "/live/song/get/tempo" [JFloat 120 0]) "data"
  = Return "120.0".
Proof.
  destruct (format_response_of_relay_replies (fun _ => "120.0")
              [("command", JStr "send_message"); ("address", JStr "/live/song/get/tempo")]
              None [Inbound "/live/song/get/tempo" [JFloat 120 0]] init
              (success_envelope "/live/song/get/tempo" [JFloat 120 0])
              eq_refl eq_refl)
    as [(a & data & He & Hf) | [(a & He & _) | (m & Hm & _)]].
  - injection He as _ <-. exact Hf.
  - discriminate He.
  - reflexivity.
Defined.

(** X19.  [test_connection], over a connection to a daemon whose Ableton
    stays silent: the status request is answered, the request to
    [/live/test] is awaited and times out, and because the daemon's timeout
    message contains the word [Timeout] the tool reports that the daemon
    runs but Ableton Live does not respond. *)
Theorem test_connection_reports_silent_ableton py_repr d c send_exn1 env1 env :
  registry_wf d ->
  forallb (fun ev => negb (completes "/live/test" (length (futures d)) ev)) env = true ->
  fst (test_connection py_repr
         true (exchange py_repr (AbletonClient.build_request "get_status" [])
                 send_exn1 env1 d)
         true (exchange py_repr
                 (AbletonClient.build_request "send_message"
                    [("address", JStr "/live/test"); ("args", JList [])])
                 None env d)
         c)
  = Return ableton_not_responding_text.
Proof.
  intros Hwf Henv.
  assert (E2 : exchange py_repr
                 (AbletonClient.build_request "send_message"
                    [("address", JStr "/live/test"); ("args", JList [])]) None env d
               = AbletonClient.IoReply
                   (error_envelope (timeout_message "/live/test") "/live/test")).
  { unfold exchange.
    replace (_process_command py_repr _ None env d)
      with (_send_osc_with_response "/live/test" (JList []) None env d) by reflexivity.
    rewrite send_osc_with_response_times_out by assumption. reflexivity. }
  rewrite E2.
  destruct c as [[|] [s|] n w]; reflexivity.
Qed.


(** X21.  [test_connection] with a client that is not connected and a
    daemon that cannot be reached: the tool reports that the daemon does
    not respond, with the client's own error message, and the request to
    [/live/test] is never made: one connection attempt, nothing on the
    wire. *)
Theorem test_connection_reports_unreachable_daemon py_repr io1 reachable2 io2 c :
  AbletonClient.connected c = false ->
  test_connection py_repr false io1 reachable2 io2 c =
  (Return (daemon_not_responding_text ++
           "Not connected to OSC daemon. Is osc_daemon.py running?"),
   AbletonClient.mkClient false None (S (AbletonClient.attempts c))
     (AbletonClient.wire c)).
Proof.
  intros Hc. destruct c as [conn so n w]. simpl in Hc. subst conn.
  destruct so; reflexivity.
Qed.

Lemma test_connection_reports_silent_ableton_witness :
  fst (test_connection (fun _ => "")
         true (exchange (fun _ => "") (AbletonClient.build_request "get_status" [])
                 None [] init)
         true (exchange (fun _ => "")
                 (AbletonClient.build_request "send_message"
                    [("address", JStr "/live/test"); ("args", JList [])])
                 None [Inbound "/live/song/get/tempo" [JFloat 120 0]] init)
         AbletonClient.fresh)
  = Return ableton_not_responding_text.
Proof.
  apply (test_connection_reports_silent_ableton (fun _ => "") init AbletonClient.fresh
           None [] [Inbound "/live/song/get/tempo" [JFloat 120 0]]).
  - intros a g H. simpl in H. rewrite lookup_empty in H. discriminate H.
  - reflexivity.
Defined.


Lemma test_connection_reports_unreachable_daemon_witness :
  snd (test_connection (fun _ => "") false AbletonClient.IoClosed true AbletonClient.IoClosed
         AbletonClient.fresh)
  = AbletonClient.mkClient false None 1 [].
Proof.
  rewrite (test_connection_reports_unreachable_daemon (fun _ => "")
             AbletonClient.IoClosed true AbletonClient.IoClosed AbletonClient.fresh eq_refl).
  reflexivity.
Defined.
